(** * The quiz session engine of hbot: services/quiz_service.py and the
      quiz buttons of handlers/student.py, embedded and verified.

    The engine is modelled by explicit state passing over a [world]: the
    service's [active_quizzes] dict and the tables it reads and writes.
    Python exceptions are results ([Raise]); the clock and the random stream
    are arguments. Left outside: the parsing of the callback data (a button
    arrives as a [callback]), the text and keyboards sent back (a [reply] only
    says which message goes out), failures of the database itself, and rows
    of the questions table whose JSON columns do not hold arrays. *)

From Stdlib Require Import ZArith QArith Qround Lia DecimalString DecimalZ.
From Stdlib Require SpecFloat.
From stdpp Require Import gmap strings list fin_maps.

Open Scope string_scope.
Open Scope list_scope.
Open Scope Z_scope.

(** ** Python values stored by the engine *)

(** [str(n)] on a Python int: the decimal numeral, with a leading minus sign
    for negative numbers. *)
Definition str (n : Z) : string := NilZero.string_of_int (Z.to_int n).

(** The items of the JSON arrays and of the answer lists are option indices
    (ints) or their decimal spelling (strs); Python's [==] never identifies an
    int with a str. *)
Inductive atom :=
  | AInt (n : Z)
  | AStr (s : string).

(** What [quiz_data["answers"]] holds for a question: the int sent by a
    single-choice button, or the list built by the toggle / sequence
    buttons. *)
Inductive value :=
  | VInt (n : Z)
  | VList (l : list atom).

Global Instance atom_eq_dec : EqDecision atom.
Proof. solve_decision. Defined.

Global Instance value_eq_dec : EqDecision value.
Proof. solve_decision. Defined.

Global Instance atom_countable : Countable atom.
Proof.
  refine (inj_countable'
    (fun a => match a with AInt n => inl n | AStr s => inr s end)
    (fun x => match x with inl n => AInt n | inr s => AStr s end) _).
  by intros [].
Defined.

(** Exceptions the modelled code can raise. *)
Inductive pyexn := TypeError | IndexError | AttributeError | ValueError.

Inductive result (A : Type) :=
  | Ok (a : A)
  | Raise (e : pyexn).
Arguments Ok {A} a.
Arguments Raise {A} e.

(** [x in v]: membership in a list; an int is not iterable. *)
Definition py_in (x : atom) (v : value) : result bool :=
  match v with
  | VList l => Ok (bool_decide (x ∈ l))
  | VInt _ => Raise TypeError
  end.

(** [l.remove(x)] for an [x] known to occur: drops the first occurrence. *)
Fixpoint list_remove (x : atom) (l : list atom) : list atom :=
  match l with
  | [] => []
  | y :: l' => if decide (x = y) then l' else y :: list_remove x l'
  end.

(** [set(v)]: the set of the items of a list; an int is not iterable. *)
Definition py_set (v : value) : result (gset atom) :=
  match v with
  | VList l => Ok (list_to_set l)
  | VInt _ => Raise TypeError
  end.

(** [v == c] for a stored answer [v] and one item [c] of a JSON array. *)
Definition eq_item (v : value) (c : atom) : bool :=
  match v, c with
  | VInt n, AInt m => bool_decide (n = m)
  | _, _ => false
  end.

(** [v == l] for a stored answer [v] and a JSON array [l]: list equality,
    item by item. *)
Definition eq_list (v : value) (l : list atom) : bool :=
  match v with
  | VList l' => bool_decide (l' = l)
  | VInt _ => false
  end.

(** ** Question snapshots and sessions *)

(** An entry of [quiz_data["questions"]], built by [start_quiz] from a row of
    the questions table; [options] and [correct_answer] are the decoded JSON
    arrays. Scope: the rows are those whose two columns hold JSON arrays, of
    strs for [options] and of ints or strs for [correct_answer]; this is what
    the admin dialogue writes and what [validate_question_data] accepts. The
    JSON import stores whatever value the file gives without checking it; a
    row holding anything else there (a bare number, a nested array), and the
    TypeError that indexing or [set] would raise on it, has no counterpart
    here. *)
Record question := {
  id : Z;
  text : string;
  options : list string;
  correct_answer : list atom;
  question_type : string;
  explanation : option string;
  media_url : option string
}.

(** [quiz_data]: the per-user session; [answers] is keyed by
    [str(question["id"])]. *)
Record quiz_data := {
  topic_id : Z;
  questions : list question;
  current_question : Z;
  answers : gmap string value;
  start_time : Z;
  is_completed : bool
}.

Definition set_answers (qd : quiz_data) (a : gmap string value) : quiz_data :=
  {| topic_id := topic_id qd; questions := questions qd;
     current_question := current_question qd; answers := a;
     start_time := start_time qd; is_completed := is_completed qd |}.

Definition set_current (qd : quiz_data) (i : Z) : quiz_data :=
  {| topic_id := topic_id qd; questions := questions qd;
     current_question := i; answers := answers qd;
     start_time := start_time qd; is_completed := is_completed qd |}.

Definition set_completed (qd : quiz_data) (b : bool) : quiz_data :=
  {| topic_id := topic_id qd; questions := questions qd;
     current_question := current_question qd; answers := answers qd;
     start_time := start_time qd; is_completed := b |}.

(** [len(l)] as a Python int. *)
Definition len {A} (l : list A) : Z := Z.of_nat (length l).

(** ** Scoring (the loop body of [complete_quiz]) *)

Definition is_correct (q : question) (user_answer : option value) : result bool :=
  match user_answer with
  | None => Ok false
  | Some ua =>
      if decide (question_type q = "single") then
        match correct_answer q with
        | [] => Raise IndexError
        | c :: _ => Ok (eq_item ua c)
        end
      else if decide (question_type q = "multiple") then
        match py_set ua with
        | Ok s => Ok (bool_decide (s = list_to_set (correct_answer q)))
        | Raise e => Raise e
        end
      else if decide (question_type q = "sequence") then
        Ok (eq_list ua (correct_answer q))
      else Ok false
  end.

(** One entry of [question_results]. *)
Record question_result := {
  qr_question : string;
  qr_user_answer : option value;
  qr_correct_answer : list atom;
  qr_is_correct : bool;
  qr_explanation : option string
}.

(** The scoring loop: [correct_count] and [question_results], or the first
    exception raised. *)
Fixpoint score_questions (ans : gmap string value) (qs : list question)
  : result (nat * list question_result) :=
  match qs with
  | [] => Ok (0%nat, [])
  | q :: qs' =>
      let user_answer := ans !! str (id q) in
      match is_correct q user_answer with
      | Raise e => Raise e
      | Ok b =>
          match score_questions ans qs' with
          | Raise e => Raise e
          | Ok (n, rs) =>
              Ok ((if b then S n else n),
                  {| qr_question := text q; qr_user_answer := user_answer;
                     qr_correct_answer := correct_answer q; qr_is_correct := b;
                     qr_explanation := explanation q |} :: rs)
          end
      end
  end.

(** ** Storage *)

(** A row of the test_results table. *)
Record test_result := {
  tr_topic_id : Z;
  tr_score : nat;
  tr_max_score : nat;
  tr_percentage : Q;
  tr_time_spent : Z
}.

(** A row of the achievements table (and an entry of
    [achievements_to_check], without its condition). *)
Record achievement := {
  name : string;
  description : string;
  points : Z;
  badge_url : string
}.

(** A row of the users table with its two relationships, [user.results] and
    [user.achievements]. *)
Record user := {
  results : list test_result;
  achievements : list achievement
}.

(** The state the engine works on: the service's [active_quizzes] dict, the
    users table keyed by [telegram_id] (a unique column), and the questions
    table as (topic_id, row) pairs in increasing [id]. *)
Record world := {
  active_quizzes : gmap Z quiz_data;
  users : gmap Z user;
  question_table : list (Z * question)
}.

Definition set_quizzes (w : world) (aq : gmap Z quiz_data) : world :=
  {| active_quizzes := aq; users := users w; question_table := question_table w |}.

Definition set_users (w : world) (us : gmap Z user) : world :=
  {| active_quizzes := active_quizzes w; users := us;
     question_table := question_table w |}.

(** [l[i]] with Python's indexing: negative indices count from the end,
    [None] stands for IndexError. *)
Definition py_item {A} (l : list A) (i : Z) : option A :=
  if (0 <=? i)%Z then l !! Z.to_nat i
  else if (0 <=? len l + i)%Z then l !! Z.to_nat (len l + i)
  else None.

(** [random.sample(pool, k)]: [k] draws without replacement; each draw takes
    the next number of the random stream [rnd] modulo what is left. *)
Fixpoint sample {A} (pool : list A) (k : nat) (rnd : list nat) : list A :=
  match k with
  | O => []
  | S k' =>
      let i := (hd 0 rnd mod length pool)%nat in
      match pool !! i with
      | Some x => x :: sample (delete i pool) k' (tl rnd)
      | None => []
      end
  end.

(** *** Floats

    [percentage] is a Python float, an IEEE 754 binary64 number; a finite one
    is a rational, and it is kept here as that rational (in lowest terms), so
    that two percentages are the same float exactly when they are equal. *)

(** The integer nearest to [x], ties to the even one. *)
Definition round_half_even (x : Q) : Z :=
  let f := Qfloor x in
  match (x - inject_Z f ?= 1 # 2)%Q with
  | Lt => f
  | Gt => f + 1
  | Eq => if Z.even f then f else f + 1
  end.

(** [2 ** e] for an integer [e] of either sign. *)
Definition pow2 (e : Z) : Q :=
  if (0 <=? e)%Z then inject_Z (2 ^ e) else (1 / inject_Z (2 ^ (- e)))%Q.

(** The [k] with [2 ** k <= x < 2 ** (k + 1)], for a positive [x]. *)
Definition binade (x : Q) : Z :=
  let k := Z.log2 (Qnum x) - Z.log2 (Zpos (Qden x)) in
  if Qle_bool (pow2 k) x then k else k - 1.

(** The binary64 number nearest to [x], ties to the even mantissa: 53
    significant bits, and steps of [2 ** -1074] below the normal range.
    Overflow to infinity is left out: the numbers rounded here are at most
    100. *)
Definition nearest_double (x : Q) : Q :=
  match Qnum x with
  | 0 => 0%Q
  | Zpos _ =>
      let e := Z.max (binade x - 52) (-1074) in
      Qred (inject_Z (round_half_even (x / pow2 e)) * pow2 e)
  | Zneg _ =>
      let e := Z.max (binade (- x) - 52) (-1074) in
      Qred (- (inject_Z (round_half_even (- x / pow2 e)) * pow2 e))
  end.

(** [round(x, 1)] on a float [x]: CPython rounds the exact value of [x] to
    one decimal (ties to even) and returns the float nearest to that
    decimal. *)
Definition round1 (x : Q) : Q :=
  nearest_double (inject_Z (round_half_even (x * 10)) / 10).

(** [(correct_count / total_questions) * 100]: the true division of two ints
    and the product with 100, each rounded to the nearest float. *)
Definition ratio_times_100 (c t : nat) : Q :=
  nearest_double (nearest_double (inject_Z (Z.of_nat c) / inject_Z (Z.of_nat t))
                  * 100).

(** [round((correct_count / total_questions) * 100, 1) if total_questions > 0
    else 0]. *)
Definition percentage_of (correct_count total_questions : nat) : Q :=
  if (0 <? total_questions)%nat
  then round1 (ratio_times_100 correct_count total_questions)
  else 0%Q.

(** The same quotient and product computed with the binary64 operations of
    the Standard Library's IEEE 754 specification, to compare with. *)
Definition SF2Q (f : SpecFloat.spec_float) : option Q :=
  match f with
  | SpecFloat.S754_zero _ => Some 0%Q
  | SpecFloat.S754_finite s m e =>
      Some (Qred ((if s then -1 else 1) * inject_Z (Zpos m) * pow2 e))
  | _ => None
  end.

Definition SFofZ (n : Z) : SpecFloat.spec_float :=
  SpecFloat.binary_normalize 53 1024 n 0 false.

Definition ratio_times_100_ieee (c t : nat) : option Q :=
  SF2Q (SpecFloat.SFmul 53 1024
          (SpecFloat.SFdiv 53 1024 (SFofZ (Z.of_nat c)) (SFofZ (Z.of_nat t)))
          (SFofZ 100)).

Definition same_Q (a b : Q) : bool :=
  (Qnum a =? Qnum b)%Z && Pos.eqb (Qden a) (Qden b).

(** ** QuizService *)

Inductive start_outcome :=
  | StartNoQuestions
  | StartRaise (e : pyexn)
  | StartOk (qd : quiz_data).

(** [start_quiz(user_id, topic_id, question_count)]; [now] is the clock and
    [rnd] the random stream used by the draw. *)
Definition start_quiz (w : world) (user_id topic_id question_count : Z)
    (now : Z) (rnd : list nat) : world * start_outcome :=
  let questions := (filter (fun r => r.1 = topic_id) (question_table w)).*2 in
  match questions with
  | [] => (w, StartNoQuestions)
  | _ =>
      let k := Z.min question_count (len questions) in
      if (k <? 0)%Z then (w, StartRaise ValueError)
      else
        let selected_questions := sample questions (Z.to_nat k) rnd in
        let quiz_data :=
          {| topic_id := topic_id; questions := selected_questions;
             current_question := 0; answers := ∅;
             start_time := now; is_completed := false |} in
        (set_quizzes w (<[user_id := quiz_data]> (active_quizzes w)),
         StartOk quiz_data)
  end.

(** [get_current_question(user_id)]. *)
Definition get_current_question (w : world) (user_id : Z)
  : result (option question) :=
  match active_quizzes w !! user_id with
  | None => Ok None
  | Some quiz_data =>
      if (len (questions quiz_data) <=? current_question quiz_data)%Z
      then Ok None
      else match py_item (questions quiz_data) (current_question quiz_data) with
           | Some question => Ok (Some question)
           | None => Raise IndexError
           end
  end.

(** [is_option_selected(user_id, question_id, option_index)]. *)
Definition is_option_selected (w : world) (user_id question_id option_index : Z)
  : result bool :=
  let answers :=
    match active_quizzes w !! user_id with
    | Some quiz_data => answers quiz_data
    | None => ∅
    end in
  py_in (AInt option_index) (default (VList []) (answers !! str question_id)).

(** [get_current_sequence(user_id, question_id)]. *)
Definition get_current_sequence (w : world) (user_id question_id : Z) : value :=
  let answers :=
    match active_quizzes w !! user_id with
    | Some quiz_data => answers quiz_data
    | None => ∅
    end in
  default (VList []) (answers !! str question_id).

(** The three rules of [achievements_to_check], each with its condition
    already evaluated. *)
Definition achievements_to_check (percentage : Q) (u : user)
  : list (achievement * bool) :=
  [ ({| name := "Первый тест"; description := "Пройден первый тест!";
        points := 10; badge_url := "badges/first_test.png" |},
     true);
    ({| name := "Отличник"; description := "Получите 100% в тесте";
        points := 50; badge_url := "badges/perfect_score.png" |},
     Qeq_bool percentage 100);
    ({| name := "Знаток истории"; description := "Пройдите 10 тестов";
        points := 100; badge_url := "badges/history_expert.png" |},
     bool_decide ((10 <= length (results u))%nat)) ].

(** [check_achievements(user_id, correct_count, total_questions, percentage)]:
    the new state and [new_achievements]. *)
Definition check_achievements (w : world) (user_id : Z)
    (correct_count total_questions : nat) (percentage : Q)
  : world * list achievement :=
  match users w !! user_id with
  | None => (w, [])
  | Some u =>
      let existing_achievements : gset string :=
        list_to_set (name <$> achievements u) in
      let new_achievements :=
        (filter (fun ac => (name (ac.1) ∉ existing_achievements) ∧ ac.2 = true)
                (achievements_to_check percentage u)).*1 in
      (set_users w (<[user_id :=
          {| results := results u;
             achievements := achievements u ++ new_achievements |}]> (users w)),
       new_achievements)
  end.

Inductive complete_outcome :=
  | CompleteNoActive
  | CompleteRaise (e : pyexn)
  | CompleteUserNotFound
  | CompleteOk (correct_count total_questions : nat) (percentage : Q)
               (question_results : list question_result).

(** [complete_quiz(user_id)]. *)
Definition complete_quiz (w : world) (user_id : Z) (now : Z)
  : world * complete_outcome :=
  match active_quizzes w !! user_id with
  | None => (w, CompleteNoActive)
  | Some quiz_data =>
      match score_questions (answers quiz_data) (questions quiz_data) with
      | Raise e => (w, CompleteRaise e)
      | Ok (correct_count, question_results) =>
          let total_questions := length (questions quiz_data) in
          let percentage := percentage_of correct_count total_questions in
          match users w !! user_id with
          | None => (w, CompleteUserNotFound)
          | Some u =>
              let test_result :=
                {| tr_topic_id := topic_id quiz_data;
                   tr_score := correct_count;
                   tr_max_score := total_questions;
                   tr_percentage := percentage;
                   tr_time_spent := (now - start_time quiz_data) `mod` 86400 |} in
              let w1 := set_users w (<[user_id :=
                   {| results := results u ++ [test_result];
                      achievements := achievements u |}]> (users w)) in
              let w2 := (check_achievements w1 user_id correct_count
                           total_questions percentage).1 in
              (set_quizzes w2 (delete user_id (active_quizzes w2)),
               CompleteOk correct_count total_questions percentage
                          question_results)
          end
      end
  end.

Inductive submit_outcome :=
  | SubmitNoActive
  | SubmitExhausted
  | SubmitRaise (e : pyexn)
  | SubmitOk (is_completed : bool) (result : option complete_outcome).

(** What [submit_answer] and [skip_question] share once the current question
    is behind: advance, and complete the quiz when the questions are
    exhausted. *)
Definition advance (w : world) (user_id : Z) (quiz_data : quiz_data) (now : Z)
  : world * submit_outcome :=
  let quiz_data := set_current quiz_data (current_question quiz_data + 1) in
  if (len (questions quiz_data) <=? current_question quiz_data)%Z then
    let quiz_data := set_completed quiz_data true in
    let w := set_quizzes w (<[user_id := quiz_data]> (active_quizzes w)) in
    match complete_quiz w user_id now with
    | (w', CompleteRaise e) => (w', SubmitRaise e)
    | (w', r) => (w', SubmitOk true (Some r))
    end
  else
    (set_quizzes w (<[user_id := quiz_data]> (active_quizzes w)),
     SubmitOk false None).

(** [submit_answer(user_id, question_id, answer)]. *)
Definition submit_answer (w : world) (user_id question_id : Z) (answer : value)
    (now : Z) : world * submit_outcome :=
  match active_quizzes w !! user_id with
  | None => (w, SubmitNoActive)
  | Some quiz_data =>
      let question_index := current_question quiz_data in
      if (len (questions quiz_data) <=? question_index)%Z
      then (w, SubmitExhausted)
      else
        match py_item (questions quiz_data) question_index with
        | None => (w, SubmitRaise IndexError)
        | Some current_question =>
            let quiz_data :=
              set_answers quiz_data
                (<[str (id current_question) := answer]> (answers quiz_data)) in
            advance w user_id quiz_data now
        end
  end.

(** [skip_question(user_id)]. *)
Definition skip_question (w : world) (user_id : Z) (now : Z)
  : world * submit_outcome :=
  match active_quizzes w !! user_id with
  | None => (w, SubmitNoActive)
  | Some quiz_data =>
      let question_index := current_question quiz_data in
      if (len (questions quiz_data) <=? question_index)%Z
      then (w, SubmitExhausted)
      else advance w user_id quiz_data now
  end.

(** ** The quiz buttons (handlers/student.py) *)

(** The callback data of a quiz button, split into its fields:
    [quiz_start_<topic>], [quiz_answer_<q>_<i>], [quiz_seq_<q>_<i>],
    [quiz_reset_<q>], [quiz_confirm_<q>] and [quiz_skip]. *)
Inductive callback :=
  | QuizStart (topic_id : Z)
  | QuizAnswer (question_id option_index : Z)
  | QuizSeq (question_id option_index : Z)
  | QuizReset (question_id : Z)
  | QuizConfirm (question_id : Z)
  | QuizSkip.

(** What the handler sends back. [Ignored] is the silent path: no branch
    applies and nothing is sent. *)
Inductive reply :=
  | Ignored
  | Question (q : question)
  | TestResults (r : complete_outcome)
  | Message
  | ErrorMessage.

(** [show_question]: shows the current question; with none left it completes
    the quiz and shows the results. *)
Definition show_question (w : world) (user_id : Z) (now : Z) : world * reply :=
  match get_current_question w user_id with
  | Raise _ => (w, ErrorMessage)
  | Ok (Some current_question) => (w, Question current_question)
  | Ok None =>
      match complete_quiz w user_id now with
      | (w', CompleteRaise _) => (w', ErrorMessage)
      | (w', r) => (w', TestResults r)
      end
  end.

(** After [submit_answer] or [skip_question]: results, the next question, or
    the failure message. *)
Definition after_submit (r : world * submit_outcome) (user_id : Z) (now : Z)
  : world * reply :=
  match r with
  | (w, SubmitOk true (Some result)) => (w, TestResults result)
  | (w, SubmitOk true None) => (w, ErrorMessage)
  | (w, SubmitOk false _) => show_question w user_id now
  | (w, SubmitRaise _) => (w, ErrorMessage)
  | (w, _) => (w, Message)
  end.

(** [quiz_service.active_quizzes[user_id]["answers"][str(question_id)] = v]. *)
Definition set_answer (w : world) (user_id question_id : Z) (v : value) : world :=
  match active_quizzes w !! user_id with
  | Some quiz_data =>
      set_quizzes w (<[user_id :=
        set_answers quiz_data (<[str question_id := v]> (answers quiz_data))]>
        (active_quizzes w))
  | None => w
  end.

(** [quiz_service.active_quizzes[user_id]["answers"].get(str(question_id), [])]. *)
Definition get_answer (w : world) (user_id question_id : Z) : value :=
  match active_quizzes w !! user_id with
  | Some quiz_data => default (VList []) (answers quiz_data !! str question_id)
  | None => VList []
  end.

(** The multiple-choice branch of [quiz_answer_]: remove the index when it is
    selected, append it otherwise. *)
Definition toggle (option_index : Z) (selected_options : value) : result value :=
  match selected_options with
  | VList l =>
      if bool_decide (AInt option_index ∈ l)
      then Ok (VList (list_remove (AInt option_index) l))
      else Ok (VList (l ++ [AInt option_index]))
  | VInt _ => Raise TypeError
  end.

(** The [quiz_seq_] branch: [sequence.append(str(option_index))]. *)
Definition append_choice (option_index : Z) (sequence : value) : result value :=
  match sequence with
  | VList l => Ok (VList (l ++ [AStr (str option_index)]))
  | VInt _ => Raise AttributeError
  end.

(** The default [question_count] of [start_quiz]. *)
Definition default_question_count : Z := 10.

(** [handle_test_button] for user [user_id]; an exception anywhere ends in
    the handler's [except] branch with the state as it is then. *)
Definition handle_test_button (w : world) (user_id : Z) (data : callback)
    (now : Z) (rnd : list nat) : world * reply :=
  match data with
  | QuizStart topic_id =>
      match start_quiz w user_id topic_id default_question_count now rnd with
      | (w', StartOk _) => show_question w' user_id now
      | (w', StartNoQuestions) => (w', Message)
      | (w', StartRaise _) => (w', ErrorMessage)
      end
  | QuizAnswer question_id option_index =>
      match get_current_question w user_id with
      | Raise _ => (w, ErrorMessage)
      | Ok None => (w, Ignored)
      | Ok (Some current_question) =>
          if decide (id current_question = question_id) then
            if decide (question_type current_question = "single") then
              after_submit
                (submit_answer w user_id question_id (VInt option_index) now)
                user_id now
            else if decide (question_type current_question = "multiple") then
              match toggle option_index (get_answer w user_id question_id) with
              | Raise _ => (w, ErrorMessage)
              | Ok selected_options =>
                  show_question
                    (set_answer w user_id question_id selected_options)
                    user_id now
              end
            else (w, Ignored)
          else (w, Ignored)
      end
  | QuizSeq question_id option_index =>
      match get_current_question w user_id with
      | Raise _ => (w, ErrorMessage)
      | Ok None => (w, Ignored)
      | Ok (Some current_question) =>
          if decide (id current_question = question_id) then
            match append_choice option_index (get_answer w user_id question_id) with
            | Raise _ => (w, ErrorMessage)
            | Ok sequence =>
                show_question (set_answer w user_id question_id sequence)
                              user_id now
            end
          else (w, Ignored)
      end
  | QuizReset question_id =>
      match get_current_question w user_id with
      | Raise _ => (w, ErrorMessage)
      | Ok None => (w, Ignored)
      | Ok (Some current_question) =>
          if decide (id current_question = question_id) then
            show_question (set_answer w user_id question_id (VList []))
                          user_id now
          else (w, Ignored)
      end
  | QuizConfirm question_id =>
      match get_current_question w user_id with
      | Raise _ => (w, ErrorMessage)
      | Ok None => (w, Ignored)
      | Ok (Some current_question) =>
          if decide (id current_question = question_id) then
            let answer := get_answer w user_id question_id in
            after_submit (submit_answer w user_id question_id answer now)
                         user_id now
          else (w, Ignored)
      end
  | QuizSkip => after_submit (skip_question w user_id now) user_id now
  end.

(** A run of button presses by several users: each press carries the user,
    the button, the clock and the random stream. *)
Definition press : Type := Z * callback * Z * list nat.

Definition do_press (w : world) (p : press) : world :=
  (handle_test_button w p.1.1.1 p.1.1.2 p.1.2 p.2).1.

Definition run (w : world) (ps : list press) : world := foldl do_press w ps.

(** ** Vocabulary of the statements *)

(** The question id a button carries in its callback data. *)
Definition carries (data : callback) (question_id : Z) : Prop :=
  match data with
  | QuizAnswer q _ | QuizSeq q _ | QuizReset q | QuizConfirm q => q = question_id
  | QuizStart _ | QuizSkip => False
  end.

(** The session as [submit_answer] and [skip_question] leave it when it is
    not removed. *)
Definition advanced (qd : quiz_data) : quiz_data :=
  let qd' := set_current qd (current_question qd + 1) in
  if (len (questions qd') <=? current_question qd')%Z
  then set_completed qd' true else qd'.

(** [cur] is the question at [current_question], which is below
    [len(questions)]. *)
Definition is_current (qd : quiz_data) (cur : question) : Prop :=
  current_question qd < len (questions qd)
  ∧ py_item (questions qd) (current_question qd) = Some cur.

(** [answers.get(str(q["id"]), [])] *)
Definition entry (qd : quiz_data) (q : question) : value :=
  default (VList []) (answers qd !! str (id q)).

(** [answers[str(q["id"])] = v] *)
Definition record (qd : quiz_data) (q : question) (v : value) : quiz_data :=
  set_answers qd (<[str (id q) := v]> (answers qd)).

(** The three ways a button rewrites the entry of the current question
    without advancing. *)
Inductive edits (v : value) : value → Prop :=
  | edit_toggle i v' : toggle i v = Ok v' → edits v v'
  | edit_append i v' : append_choice i v = Ok v' → edits v v'
  | edit_reset : edits v (VList []).

(** The session [start_quiz] builds. *)
Definition fresh (table : list (Z * question)) (topic_id question_count : Z)
    (now : Z) (rnd : list nat) : quiz_data :=
  let questions := (filter (fun r => r.1 = topic_id) table).*2 in
  {| topic_id := topic_id;
     questions := sample questions
                    (Z.to_nat (Z.min question_count (len questions))) rnd;
     current_question := 0; answers := ∅;
     start_time := now; is_completed := false |}.

(** Every way the engine writes a session into [active_quizzes], given the
    user's session before. *)
Inductive session_next (table : list (Z * question)) (old : option quiz_data)
  : quiz_data → Prop :=
  | next_start topic_id question_count now rnd :
      session_next table old (fresh table topic_id question_count now rnd)
  | next_edit qd cur v :
      old = Some qd → is_current qd cur → edits (entry qd cur) v →
      session_next table old (record qd cur v)
  | next_submit qd cur v :
      old = Some qd → is_current qd cur →
      session_next table old (advanced (record qd cur v))
  | next_skip qd :
      old = Some qd → current_question qd < len (questions qd) →
      session_next table old (advanced qd).

(** One operation's effect on the store, for user [u]: nothing, the user's
    session removed, or the user's session replaced as [session_next]
    allows. *)
Definition store_step (w w' : world) (u : Z) : Prop :=
  question_table w' = question_table w
  ∧ (active_quizzes w' = active_quizzes w
     ∨ active_quizzes w' = delete u (active_quizzes w)
     ∨ ∃ qd, session_next (question_table w) (active_quizzes w !! u) qd
             ∧ active_quizzes w' = <[u := qd]> (active_quizzes w)).

(** A property [P] of every session of the store, over a questions table
    satisfying [T]. *)
Definition sessions_ok (T : list (Z * question) → Prop) (P : quiz_data → Prop)
    (w : world) : Prop :=
  T (question_table w) ∧ map_Forall (λ _ qd, P qd) (active_quizzes w).

(** [0 <= current_question <= len(questions)] *)
Definition index_in_bounds (qd : quiz_data) : Prop :=
  0 <= current_question qd <= len (questions qd).

Definition index_inv (w : world) : Prop :=
  map_Forall (λ _ qd, index_in_bounds qd) (active_quizzes w).

(** ** Concrete data for the examples *)

Definition q_single : question :=
  {| id := 1; text := "q1"; options := ["a"; "b"; "c"];
     correct_answer := [AInt 2]; question_type := "single";
     explanation := None; media_url := None |}.

Definition q_multiple : question :=
  {| id := 2; text := "q2"; options := ["a"; "b"; "c"];
     correct_answer := [AInt 0; AInt 2]; question_type := "multiple";
     explanation := None; media_url := None |}.

Definition q_sequence : question :=
  {| id := 3; text := "q3"; options := ["a"; "b"; "c"];
     correct_answer := [AStr "2"; AStr "0"; AStr "1"];
     question_type := "sequence";
     explanation := None; media_url := None |}.

(** The same question as a JSON import stores it when the file gives the
    correct order as numbers, ["correct_answer": [2, 0, 1]]. *)
Definition q_sequence_ints : question :=
  {| id := 4; text := "q4"; options := ["a"; "b"; "c"];
     correct_answer := [AInt 2; AInt 0; AInt 1];
     question_type := "sequence";
     explanation := None; media_url := None |}.

(** A store without sessions: one registered user, 42, and one topic, 1,
    holding the questions [qs]. *)
Definition demo (qs : list question) : world :=
  {| active_quizzes := ∅;
     users := {[ 42 := {| results := []; achievements := [] |} ]};
     question_table := (λ q, (1, q)) <$> qs |}.

(** User 42 presses the buttons [ds] in turn. *)
Definition presses (ds : list callback) : list press :=
  (λ d, (42, d, 0, [])) <$> ds.

Global Instance index_in_bounds_dec qd : Decision (index_in_bounds qd).
Proof. unfold index_in_bounds. apply _. Defined.

Global Instance index_inv_dec w : Decision (index_inv w).
Proof. unfold index_inv. apply _. Defined.

(** [[str(idx) for idx in sequence]]: the form in which the admin dialogue
    stores a correct sequence, and what the [quiz_seq_] presses for the
    indices [sequence] accumulate. *)
Definition seq_items (sequence : list Z) : list atom :=
  (λ idx, AStr (str idx)) <$> sequence.

(** User [u] presses [quiz_seq_<q>_<i>] for each [i] of [picks] in turn. *)
Definition seq_presses (u q : Z) (picks : list Z) (now : Z) (rnd : list nat)
  : list press :=
  (λ i, (u, QuizSeq q i, now, rnd)) <$> picks.

(** The session of user [u] completes successfully, taking the store from
    [w] to [w']: [complete_quiz] returns its result payload, called directly
    or from [submit_answer] or [skip_question], or a button press ends with
    the results shown. *)
Inductive completes (w : world) (u : Z) (w' : world) : Prop :=
  | completes_directly now cc tq pct qr :
      complete_quiz w u now = (w', CompleteOk cc tq pct qr) →
      completes w u w'
  | completes_by_submit q a now cc tq pct qr :
      submit_answer w u q a now
        = (w', SubmitOk true (Some (CompleteOk cc tq pct qr))) →
      completes w u w'
  | completes_by_skip now cc tq pct qr :
      skip_question w u now
        = (w', SubmitOk true (Some (CompleteOk cc tq pct qr))) →
      completes w u w'
  | completes_by_button data now rnd cc tq pct qr :
      handle_test_button w u data now rnd
        = (w', TestResults (CompleteOk cc tq pct qr)) →
      completes w u w'.

(** [n] presses of skip in a row by user [u]. *)
Fixpoint skips (w : world) (u now : Z) (n : nat) : world :=
  match n with
  | O => w
  | S n' => skips (skip_question w u now).1 u now n'
  end.

(** No question of the session has an entry in [answers]. *)
Definition unanswered (qd : quiz_data) : Prop :=
  ∀ q, q ∈ questions qd → answers qd !! str (id q) = None.

(** The [question_results] of a quiz without any answer. *)
Definition blank_results (qs : list question) : list question_result :=
  (λ q, {| qr_question := text q; qr_user_answer := None;
           qr_correct_answer := correct_answer q; qr_is_correct := false;
           qr_explanation := explanation q |}) <$> qs.

(** The names of the achievements granted to user [u]. *)
Definition granted (w : world) (u : Z) : list string :=
  match users w !! u with
  | Some usr => name <$> achievements usr
  | None => []
  end.

(** No user holds two achievements of the same name. *)
Definition ach_inv (w : world) : Prop :=
  map_Forall (λ _ usr, NoDup (name <$> achievements usr)) (users w).

Global Instance ach_inv_dec w : Decision (ach_inv w).
Proof. unfold ach_inv. apply _. Defined.

(** The ints among the items of a list. *)
Definition as_int (a : atom) : option Z :=
  match a with AInt n => Some n | AStr _ => None end.

Definition ints (l : list atom) : list Z := omap as_int l.

(** What [answers] may hold for a question that is not yet behind: nothing,
    or a list in which no int occurs twice. *)
Definition entry_ok (e : option value) : Prop :=
  match e with
  | None => True
  | Some (VList l) => NoDup (ints l)
  | Some (VInt _) => False
  end.

(** The questions of a session have pairwise different ids, the index is not
    negative, and the entries of the current and the later questions are
    [entry_ok]. *)
Definition session_wf (qd : quiz_data) : Prop :=
  NoDup (id <$> questions qd)
  ∧ 0 <= current_question qd
  ∧ ∀ k q, (Z.to_nat (current_question qd) ≤ k)%nat →
           questions qd !! k = Some q →
           entry_ok (answers qd !! str (id q)).

(** [id] is the primary key of the questions table. *)
Definition table_wf (table : list (Z * question)) : Prop :=
  NoDup (id <$> table.*2).

Global Instance table_wf_dec table : Decision (table_wf table).
Proof. unfold table_wf. apply _. Defined.

(** The rows of the questions table that belong to a topic, as
    [start_quiz] queries them. *)
Definition topic_questions (w : world) (topic_id : Z) : list question :=
  (filter (fun r => r.1 = topic_id) (question_table w)).*2.


(** [is_completed] is set only on a session whose index has reached
    [len(questions)]. *)
Definition completed_at_end (qd : quiz_data) : Prop :=
  index_in_bounds qd
  ∧ (is_completed qd = true → current_question qd = len (questions qd)).

(** A single-choice question can be scored when it has a first correct
    answer. *)
Definition scorable (q : question) : Prop :=
  question_type q = "single" → correct_answer q ≠ [].

(** The questions table is keyed by [id] and every row can be scored (its
    columns being JSON arrays, as for every [question]). *)
Definition table_sound (table : list (Z * question)) : Prop :=
  table_wf table ∧ Forall (λ r, scorable r.2) table.

(** A well-formed session, within bounds, whose questions can be scored and
    where a multiple-choice question has no entry or a list. *)
Definition session_sound (qd : quiz_data) : Prop :=
  session_wf qd
  ∧ current_question qd <= len (questions qd)
  ∧ Forall scorable (questions qd)
  ∧ ∀ q v, q ∈ questions qd → question_type q = "multiple" →
           answers qd !! str (id q) = Some v → ∃ l, v = VList l.

(** Every way a button press writes a session into [active_quizzes]. *)
Inductive button_next (table : list (Z * question)) (old : option quiz_data)
  : quiz_data → Prop :=
  | pressed_start topic_id now rnd :
      button_next table old
        (fresh table topic_id default_question_count now rnd)
  | pressed_edit qd cur v :
      old = Some qd → is_current qd cur → edits (entry qd cur) v →
      button_next table old (record qd cur v)
  | pressed_single qd cur i :
      old = Some qd → is_current qd cur → question_type cur = "single" →
      button_next table old (advanced (record qd cur (VInt i)))
  | pressed_confirm qd cur :
      old = Some qd → is_current qd cur →
      button_next table old (advanced (record qd cur (entry qd cur)))
  | pressed_skip qd :
      old = Some qd → current_question qd < len (questions qd) →
      button_next table old (advanced qd).

(** ** The question message (QuizService.format_question_message) *)

(** [InlineKeyboardButton(text, callback_data=...)]; the callback data is
    kept in its split form. *)
Record button := {
  btn_text : string;
  callback_data : callback
}.

(** The newline character. *)
Definition nl : string := String (Ascii.ascii_of_nat 10) EmptyString.

(** [sep.join(l)] *)
Fixpoint join (sep : string) (l : list string) : string :=
  match l with
  | [] => ""
  | [s] => s
  | s :: l' => s +:+ sep +:+ join sep l'
  end.

(** [[f(i, x) for i, x in enumerate(l)]], counting from [i], for an [f] that
    can raise: the first exception ends the loop. *)
Fixpoint collect {A B} (f : nat → A → result B) (i : nat) (l : list A)
  : result (list B) :=
  match l with
  | [] => Ok []
  | x :: l' =>
      match f i x with
      | Raise e => Raise e
      | Ok y =>
          match collect f (S i) l' with
          | Raise e => Raise e
          | Ok ys => Ok (y :: ys)
          end
      end
  end.

(** Truth value of a stored answer: an empty list and the int 0 are false. *)
Definition truthy (v : value) : bool :=
  match v with
  | VInt n => bool_decide (n ≠ 0)
  | VList l => bool_decide (l ≠ [])
  end.

Section format_question_message.
(** [int(s)] for a str [s], which raises ValueError on what is not a
    numeral. *)
Variable py_int : string → result Z.

(** [int(opt)] for an item of the current sequence. *)
Definition int_of_item (opt : atom) : result Z :=
  match opt with
  | AInt n => Ok n
  | AStr s => py_int s
  end.

(** [format_question_message(question, question_num, total_questions,
    user_id)]: the text and the keyboard rows. The media file, looked up on
    disk, is left out. *)
Definition format_question_message (w : world) (question : question)
    (question_num total_questions : Z) (user_id : option Z)
  : result (string * list (list button)) :=
  let question_text :=
    "*Вопрос " +:+ str question_num +:+ "/" +:+ str total_questions +:+ "*"
    +:+ nl +:+ nl +:+ text question in
  let question_text :=
    if decide (question_type question = "multiple") then
      question_text +:+ nl +:+ nl
      +:+ "_Выберите все правильные варианты ответов_"
    else if decide (question_type question = "sequence") then
      question_text +:+ nl +:+ nl
      +:+ "_Расположите варианты в правильном порядке_"
    else question_text in
  let skip := [{| btn_text := "⏩ Пропустить"; callback_data := QuizSkip |}] in
  let numbered := fun (i : nat) (option : string) =>
    [{| btn_text := str (Z.of_nat i + 1) +:+ ". " +:+ option;
        callback_data := QuizSeq (id question) (Z.of_nat i) |}] in
  if decide (question_type question = "single"
             ∨ question_type question = "multiple") then
    match
      collect (fun i option =>
        match user_id with
        | Some user_id =>
            if decide (question_type question = "multiple") then
              match is_option_selected w user_id (id question) (Z.of_nat i) with
              | Raise e => Raise e
              | Ok selected =>
                  Ok [{| btn_text := (if selected then "☑" else "☐")
                                     +:+ " " +:+ option;
                         callback_data :=
                           QuizAnswer (id question) (Z.of_nat i) |}]
              end
            else Ok [{| btn_text := option;
                        callback_data :=
                          QuizAnswer (id question) (Z.of_nat i) |}]
        | None => Ok [{| btn_text := option;
                         callback_data :=
                           QuizAnswer (id question) (Z.of_nat i) |}]
        end) 0 (options question)
    with
    | Raise e => Raise e
    | Ok keyboard =>
        let keyboard :=
          if decide (question_type question = "multiple") then
            keyboard ++ [[{| btn_text := "✅ Подтвердить выбор";
                             callback_data := QuizConfirm (id question) |}]]
          else keyboard in
        Ok (question_text, keyboard ++ [skip])
    end
  else if decide (question_type question = "sequence") then
    match user_id with
    | Some user_id =>
        let current_sequence :=
          get_current_sequence w user_id (id question) in
        if truthy current_sequence then
          match current_sequence with
          | VInt _ => Raise TypeError
          | VList l =>
              match
                collect (fun i opt =>
                  match int_of_item opt with
                  | Raise e => Raise e
                  | Ok n =>
                      match py_item (options question) n with
                      | None => Raise IndexError
                      | Some option =>
                          Ok (str (Z.of_nat i + 1) +:+ ". " +:+ option)
                      end
                  end) 0 l
              with
              | Raise e => Raise e
              | Ok lines =>
                  let question_text :=
                    question_text +:+ nl +:+ nl
                    +:+ "Текущая последовательность:" +:+ nl
                    +:+ join nl lines in
                  let remaining_options :=
                    filter (fun i : nat => AStr (str (Z.of_nat i)) ∉ l)
                           (seq 0 (length (options question))) in
                  Ok (question_text,
                      ((fun i : nat =>
                          [{| btn_text := default "" (options question !! i);
                              callback_data :=
                                QuizSeq (id question) (Z.of_nat i) |}])
                         <$> remaining_options)
                      ++ [[{| btn_text := "🔄 Сбросить";
                              callback_data := QuizReset (id question) |};
                           {| btn_text := "✅ Подтвердить";
                              callback_data := QuizConfirm (id question) |}]]
                      ++ [skip])
              end
          end
        else Ok (question_text, imap numbered (options question) ++ [skip])
    | None => Ok (question_text, imap numbered (options question) ++ [skip])
    end
  else Ok (question_text, [skip]).

(** What [show_question] sends when there is a current question: the
    message for it, numbered [current_question + 1] of [len(questions)],
    formatted without a user id. *)
Definition question_message (w : world) (user_id : Z)
  : option (result (string * list (list button))) :=
  match get_current_question w user_id, active_quizzes w !! user_id with
  | Ok (Some question), Some quiz_data =>
      Some (format_question_message w question
              (current_question quiz_data + 1) (len (questions quiz_data))
              None)
  | _, _ => None
  end.
End format_question_message.

(** The callback data of the buttons of a keyboard, row by row. *)
Definition callbacks (keyboard : list (list button)) : list callback :=
  callback_data <$> concat keyboard.

(** For the examples: a reading of [int(s)] on the numerals that [str]
    writes. *)
Definition int_of_numeral (s : string) : result Z :=
  match NilZero.int_of_string s with
  | Some d => Ok (Z.of_int d)
  | None => Raise ValueError
  end.

(** ** Text helpers (utils/formatters.py, handlers/student.py) *)

(** [l[:k]]: the first [k] items, or all but the last [-k] for a negative
    [k]. *)
Definition py_prefix {A} (l : list A) (k : Z) : list A :=
  if (0 <=? k)%Z then take (Z.to_nat k) l
  else take (Z.to_nat (len l + k)) l.

(** [truncate_text(text, max_length)], on a text as the list of its
    characters; [dot] is the full stop. *)
Definition truncate_text {A} (dot : A) (text : list A) (max_length : Z)
  : list A :=
  if (len text <=? max_length)%Z then text
  else py_prefix text (max_length - 3) ++ [dot; dot; dot].

(** [format_time_period(seconds)] *)
Definition format_time_period (seconds : Z) : string :=
  if (seconds <? 60)%Z then str seconds +:+ " сек"
  else
    let minutes := seconds `div` 60 in
    let seconds := seconds `mod` 60 in
    if (minutes <? 60)%Z
    then str minutes +:+ " мин " +:+ str seconds +:+ " сек"
    else
      let hours := minutes `div` 60 in
      let minutes := minutes `mod` 60 in
      str hours +:+ " ч " +:+ str minutes +:+ " мин " +:+ str seconds
      +:+ " сек".

(** [format_time(minutes)] of handlers/student.py *)
Definition format_time (minutes : Z) : string :=
  let hours := minutes `div` 60 in
  let mins := minutes `mod` 60 in
  if (0 <? hours)%Z then str hours +:+ " ч " +:+ str mins +:+ " мин"
  else str mins +:+ " мин".

(** [str(a)] for an item. *)
Definition str_atom (a : atom) : string :=
  match a with
  | AInt n => str n
  | AStr s => s
  end.

(** [all(isinstance(a, int) for a in l)] *)
Definition all_ints (l : list atom) : bool :=
  forallb (λ a, match a with AInt _ => true | AStr _ => false end) l.

(** [format_answer(answer, options)]; [None] is an unanswered question, and
    an absent [options] counts as the empty list. *)
Definition format_answer (answer : option value) (options : list string)
  : result string :=
  match answer with
  | None => Ok "Не отвечено"
  | Some (VList l) =>
      if bool_decide (options ≠ []) && all_ints l then
        match
          collect (fun _ a =>
            if (a <? len options)%Z then
              match py_item options a with
              | Some option => Ok option
              | None => Raise IndexError
              end
            else Ok ("Вариант " +:+ str (a + 1))) 0 (ints l)
        with
        | Raise e => Raise e
        | Ok parts => Ok (join ", " parts)
        end
      else Ok (join ", " (str_atom <$> l))
  | Some (VInt n) =>
      if bool_decide (options ≠ []) && (n <? len options)%Z then
        match py_item options n with
        | Some option => Ok option
        | None => Raise IndexError
        end
      else Ok (str n)
  end.

(** Every key of [answers] is the key of a question of the session. *)
Definition answers_of_session (qd : quiz_data) : Prop :=
  ∀ k v, answers qd !! k = Some v →
         ∃ q, q ∈ questions qd ∧ k = str (id q).

(** User [u] presses [quiz_answer_<q>_<i>] for each [i] of [picks] in
    turn. *)
Definition answer_presses (u q : Z) (picks : list Z) (now : Z) (rnd : list nat)
  : list press :=
  (λ i, (u, QuizAnswer q i, now, rnd)) <$> picks.

(** ** Validation (utils/validators.py) *)

(** [validate_question_data(data)[0]] for a question whose [options] and
    [correct_answer] are lists already (the function also takes them as JSON
    text, which it decodes first): whether the data is accepted. *)
Definition validate_question_data (data : question) : bool :=
  let n := length (options data) in
  let in_range (a : atom) : bool :=
    match a with
    | AInt answer_index => bool_decide (0 <= answer_index < Z.of_nat n)
    | AStr _ => false
    end in
  bool_decide (question_type data ∈ ["single"; "multiple"; "sequence"])
  && bool_decide ((2 <= n)%nat)
  && (if decide (question_type data = "single") then
        match correct_answer data with
        | [answer_index] => in_range answer_index
        | _ => false
        end
      else if decide (question_type data = "multiple") then
        bool_decide (correct_answer data ≠ [])
        && forallb in_range (correct_answer data)
      else if decide (question_type data = "sequence") then
        let string_indices := str_atom <$> correct_answer data in
        bool_decide (length (correct_answer data) = n)
        && bool_decide (size (list_to_set string_indices : gset string) = n)
        && bool_decide (list_to_set string_indices
                        =@{gset string}
                        list_to_set ((λ i, str (Z.of_nat i)) <$> seq 0 n))
      else true).

(** The store once the confirm of the current question [cur] is recorded:
    the entry of [cur] written back as its answer and the index moved on (and
    the session marked completed when that was the last question). *)
Definition confirmed (w : world) (u : Z) (qd : quiz_data) (cur : question)
  : world :=
  set_quizzes w (<[u := advanced (record qd cur (entry qd cur))]>
                   (active_quizzes w)).

(** ** Basic facts *)

(** *** The percentage *)

(** For every quiz of up to 100 questions and every count of correct answers,
    the quotient and the product are the ones the binary64 division and
    multiplication of the Standard Library's IEEE 754 specification give. *)
Lemma ratio_times_100_is_ieee :
  forallb (λ t, forallb (λ c, match ratio_times_100_ieee c t with
                               | Some q => same_Q q (ratio_times_100 c t)
                               | None => false
                               end) (seq 0 (S t))) (seq 1 100) = true.
Proof. vm_compute. reflexivity. Qed.

(** The float is rounded, not the exact quotient: 23 of 80 is 28.75 exactly,
    but the float product lies below it and rounds to 28.7; 49 of 80 is 61.25
    exactly, the float product lies above it and rounds to 61.3. *)
Example percentage_23_of_80 :
  (ratio_times_100 23 80 < 2875 # 100)%Q
  ∧ percentage_of 23 80 = nearest_double (287 # 10).
Proof. split; by vm_compute. Qed.

Example percentage_49_of_80 :
  (6125 # 100 < ratio_times_100 49 80)%Q
  ∧ percentage_of 49 80 = nearest_double (613 # 10).
Proof. split; by vm_compute. Qed.

Example percentage_7_of_10 : percentage_of 7 10 = 70%Q.
Proof. by vm_compute. Qed.

Lemma percentage_of_zero (n : nat) : percentage_of 0 n = 0%Q.
Proof. destruct n; reflexivity. Qed.

Lemma nearest_double_one (p : positive) : nearest_double (Zpos p # p) = 1%Q.
Proof.
  unfold nearest_double. cbn [Qnum].
  assert (Hb : binade (Zpos p # p) = 0).
  { unfold binade. cbn [Qnum Qden]. rewrite Z.sub_diag.
    change (pow2 0) with 1%Q.
    destruct (Qle_bool 1 (Zpos p # p)) eqn:E; [done|].
    assert (H : (1 <= Zpos p # p)%Q) by (unfold Qle; cbn [Qnum Qden]; lia).
    apply Qle_bool_iff in H. congruence. }
  rewrite Hb. change (Z.max (0 - 52) (-1074)) with (-52).
  assert (Hq : ((Zpos p # p) / pow2 (-52) == inject_Z (2 ^ 52))%Q).
  { change (pow2 (-52)) with (1 # 4503599627370496)%Q.
    change (2 ^ 52) with 4503599627370496.
    unfold Qeq, Qdiv, Qmult, Qinv, inject_Z. cbn [Qnum Qden].
    rewrite ?Pos2Z.inj_mul. lia. }
  assert (Hr : round_half_even ((Zpos p # p) / pow2 (-52)) = 2 ^ 52).
  { unfold round_half_even.
    rewrite (Qfloor_comp _ _ Hq), Qfloor_Z.
    assert (Hc : ((Zpos p # p) / pow2 (-52) - inject_Z (2 ^ 52) ?= 1 # 2)%Q = Lt).
    { rewrite Hq. reflexivity. }
    by rewrite Hc. }
  rewrite Hr. reflexivity.
Qed.

(** Every answer correct is 100 exactly, whatever the number of questions. *)
Lemma percentage_of_all (n : nat) : (0 < n)%nat → percentage_of n n = 100%Q.
Proof.
  intros H. unfold percentage_of. rewrite (proj2 (Nat.ltb_lt _ _) H).
  unfold ratio_times_100. destruct n as [|n]; [lia|].
  replace (inject_Z (Z.of_nat (S n)) / inject_Z (Z.of_nat (S n)))%Q
    with (Zpos (Pos.of_succ_nat n) # Pos.of_succ_nat n).
  - rewrite nearest_double_one. reflexivity.
  - change (Z.of_nat (S n)) with (Zpos (Pos.of_succ_nat n)).
    unfold Qdiv, Qmult, Qinv, inject_Z. cbn [Qnum Qden].
    f_equal; lia.
Qed.

(** *** Decimal numerals *)

Lemma str_inj (n m : Z) : str n = str m → n = m.
Proof.
  unfold str. intros H.
  assert (Hnn : ∀ z, Z.to_int z ≠ Decimal.Pos Decimal.Nil
                     ∧ Z.to_int z ≠ Decimal.Neg Decimal.Nil).
  { intros [|p|p]; simpl; split; try discriminate;
      intros [= E]; by apply (DecimalPos.Unsigned.to_uint_nonnil p). }
  assert (E : Z.to_int n = Z.to_int m).
  { pose proof (NilZero.isi (Z.to_int n) (proj1 (Hnn n)) (proj2 (Hnn n))) as Hn.
    pose proof (NilZero.isi (Z.to_int m) (proj1 (Hnn m)) (proj2 (Hnn m))) as Hm.
    rewrite H in Hn. congruence. }
  rewrite <- (DecimalZ.of_to n), <- (DecimalZ.of_to m). by rewrite E.
Qed.

(** *** Sessions and the current question *)

Lemma get_current_question_session (w : world) (user_id : Z) (q : question) :
  get_current_question w user_id = Ok (Some q) →
  ∃ qd, active_quizzes w !! user_id = Some qd
        ∧ current_question qd < len (questions qd)
        ∧ py_item (questions qd) (current_question qd) = Some q.
Proof.
  unfold get_current_question. intros H.
  destruct (active_quizzes w !! user_id) as [qd|] eqn:E; [|done].
  exists qd. destruct (Z.leb_spec (len (questions qd)) (current_question qd));
    [done|].
  destruct (py_item _ _) eqn:Ei; [|done]. by simplify_eq.
Qed.

Lemma get_current_question_set_answer (w : world) (u u' q : Z) (v : value) :
  get_current_question (set_answer w u q v) u' = get_current_question w u'.
Proof.
  unfold get_current_question, set_answer.
  destruct (active_quizzes w !! u) as [qd|] eqn:E; [|done]. simpl.
  destruct (decide (u = u')) as [->|Hne].
  - by rewrite lookup_insert_eq, E.
  - by rewrite lookup_insert_ne.
Qed.

Lemma show_question_current (w : world) (user_id now : Z) (q : question) :
  get_current_question w user_id = Ok (Some q) →
  show_question w user_id now = (w, Question q).
Proof. unfold show_question. by intros ->. Qed.

Lemma get_answer_set_answer (w : world) (u q : Z) (v : value) :
  is_Some (active_quizzes w !! u) → get_answer (set_answer w u q v) u q = v.
Proof.
  intros [qd E]. unfold get_answer, set_answer. rewrite E. simpl.
  rewrite lookup_insert_eq. simpl. by rewrite lookup_insert_eq.
Qed.

(** A button whose question id is that of the current question. *)
Lemma handle_seq_current w u now rnd cur i l :
  get_current_question w u = Ok (Some cur) →
  get_answer w u (id cur) = VList l →
  handle_test_button w u (QuizSeq (id cur) i) now rnd
  = (set_answer w u (id cur) (VList (l ++ [AStr (str i)])), Question cur).
Proof.
  intros Hc Ha. simpl. rewrite Hc. rewrite decide_True by done.
  rewrite Ha. simpl. apply show_question_current.
  by rewrite get_current_question_set_answer.
Qed.

Lemma handle_toggle_current w u now rnd cur i l :
  get_current_question w u = Ok (Some cur) →
  question_type cur = "multiple" →
  get_answer w u (id cur) = VList l →
  handle_test_button w u (QuizAnswer (id cur) i) now rnd
  = (set_answer w u (id cur)
       (VList (if bool_decide (AInt i ∈ l) then list_remove (AInt i) l
               else l ++ [AInt i])),
     Question cur).
Proof.
  intros Hc Ht Ha. simpl. rewrite Hc. rewrite decide_True by done.
  rewrite decide_False by (rewrite Ht; discriminate).
  rewrite decide_True by done. rewrite Ha. simpl.
  destruct (bool_decide (AInt i ∈ l)); apply show_question_current;
    by rewrite get_current_question_set_answer.
Qed.

Lemma handle_reset_current w u now rnd cur :
  get_current_question w u = Ok (Some cur) →
  handle_test_button w u (QuizReset (id cur)) now rnd
  = (set_answer w u (id cur) (VList []), Question cur).
Proof.
  intros Hc. simpl. rewrite Hc. rewrite decide_True by done.
  apply show_question_current. by rewrite get_current_question_set_answer.
Qed.

Lemma handle_confirm_current w u now rnd cur :
  get_current_question w u = Ok (Some cur) →
  handle_test_button w u (QuizConfirm (id cur)) now rnd
  = after_submit
      (submit_answer w u (id cur) (get_answer w u (id cur)) now) u now.
Proof. intros Hc. simpl. rewrite Hc. by rewrite decide_True by done. Qed.


(** *** What completion and advancing do to the store *)

Lemma check_achievements_frame w u cc tq pct :
  active_quizzes (check_achievements w u cc tq pct).1 = active_quizzes w
  ∧ question_table (check_achievements w u cc tq pct).1 = question_table w.
Proof. unfold check_achievements. by destruct (users w !! u). Qed.

Lemma complete_quiz_cases w u now :
  ((complete_quiz w u now).1 = w
   ∧ ∀ a b c d, (complete_quiz w u now).2 ≠ CompleteOk a b c d)
  ∨ (active_quizzes (complete_quiz w u now).1 = delete u (active_quizzes w)
     ∧ question_table (complete_quiz w u now).1 = question_table w
     ∧ ∃ a b c d, (complete_quiz w u now).2 = CompleteOk a b c d).
Proof.
  unfold complete_quiz.
  destruct (active_quizzes w !! u) as [qd|]; [|by left].
  destruct (score_questions _ _) as [[cc rs]|e]; [|by left].
  destruct (users w !! u) as [usr|]; [|by left].
  right. simpl.
  match goal with |- context [check_achievements ?w1 u ?a ?b ?c] =>
    destruct (check_achievements_frame w1 u a b c) as [-> ->] end.
  eauto 10.
Qed.

Lemma advance_cases w u qd now :
  question_table (advance w u qd now).1 = question_table w
  ∧ (active_quizzes (advance w u qd now).1
       = <[u := advanced qd]> (active_quizzes w)
     ∨ (active_quizzes (advance w u qd now).1 = delete u (active_quizzes w)
        ∧ len (questions qd) <= current_question qd + 1
        ∧ ∃ a b c d,
            (advance w u qd now).2 = SubmitOk true (Some (CompleteOk a b c d)))).
Proof.
  unfold advance, advanced. simpl.
  destruct (Z.leb_spec (len (questions qd)) (current_question qd + 1)) as [Hle|Hlt];
    [|by auto].
  match goal with |- context [complete_quiz ?w1 u now] =>
    destruct (complete_quiz_cases w1 u now) as [[E Hno]|(E1 & E2 & a & b & c & d & E3)];
    destruct (complete_quiz w1 u now) as [w' r] eqn:Ec end; simpl in *.
  - subst w'. destruct r; simpl; auto.
  - subst r. simpl. split; [done|]. right. rewrite E1.
    rewrite delete_insert_eq. eauto 10.
Qed.

(** *** Every operation is a [store_step] *)

Lemma store_step_refl w u : store_step w w u.
Proof. split; auto. Qed.

Lemma start_quiz_step w u topic k now rnd :
  store_step w (start_quiz w u topic k now rnd).1 u.
Proof.
  unfold start_quiz.
  destruct ((filter _ (question_table w)).*2) as [|q qs] eqn:E;
    [apply store_step_refl|].
  destruct (Z.ltb_spec (Z.min k (len (q :: qs))) 0); [apply store_step_refl|].
  split; [done|]. right; right. eexists. split; [|done].
  rewrite <- E. apply (next_start _ _ topic k now rnd).
Qed.

Lemma complete_quiz_step w u now : store_step w (complete_quiz w u now).1 u.
Proof.
  destruct (complete_quiz_cases w u now) as [[-> _]|(E1 & E2 & _)].
  - apply store_step_refl.
  - split; auto.
Qed.

Lemma advance_step w u qd qd0 now :
  active_quizzes w !! u = Some qd0 →
  session_next (question_table w) (Some qd0) (advanced qd) →
  store_step w (advance w u qd now).1 u.
Proof.
  intros E Hn. destruct (advance_cases w u qd now) as [Et [Ea|[Ea _]]].
  - split; [done|]. right; right. exists (advanced qd). by rewrite E.
  - split; auto.
Qed.

Lemma submit_answer_step w u q a now :
  store_step w (submit_answer w u q a now).1 u.
Proof.
  unfold submit_answer.
  destruct (active_quizzes w !! u) as [qd|] eqn:E; [|apply store_step_refl].
  destruct (Z.leb_spec (len (questions qd)) (current_question qd));
    [apply store_step_refl|].
  destruct (py_item _ _) as [cur|] eqn:Ei; [|apply store_step_refl].
  eapply advance_step; [done|]. by apply (next_submit _ _ qd cur a).
Qed.

Lemma skip_question_step w u now : store_step w (skip_question w u now).1 u.
Proof.
  unfold skip_question.
  destruct (active_quizzes w !! u) as [qd|] eqn:E; [|apply store_step_refl].
  destruct (Z.leb_spec (len (questions qd)) (current_question qd));
    [apply store_step_refl|].
  eapply advance_step; [done|]. by apply next_skip.
Qed.

Lemma show_question_step w u now :
  question_table (show_question w u now).1 = question_table w
  ∧ (active_quizzes (show_question w u now).1 = active_quizzes w
     ∨ active_quizzes (show_question w u now).1 = delete u (active_quizzes w)).
Proof.
  unfold show_question. destruct (get_current_question w u) as [[cur|]|]; auto.
  destruct (complete_quiz_cases w u now) as [[E _]|(E1 & E2 & _)];
    destruct (complete_quiz w u now) as [w' r]; simpl in *;
    destruct r; simpl; subst; auto.
Qed.

(** Removing the user's session after a [store_step] is a [store_step]. *)
Lemma store_step_then_show w w1 u now :
  store_step w w1 u → store_step w (show_question w1 u now).1 u.
Proof.
  intros [Et Hs]. destruct (show_question_step w1 u now) as [Et' [Ea|Ea]].
  - split; [congruence|]. by rewrite Ea.
  - split; [congruence|]. right; left. rewrite Ea.
    destruct Hs as [->|[->|(qd & _ & ->)]]; [done| |].
    + apply map_eq. intros i. rewrite !lookup_delete. by case_decide.
    + by rewrite delete_insert_eq.
Qed.

Lemma after_submit_step w r u now :
  store_step w r.1 u → store_step w (after_submit r u now).1 u.
Proof.
  destruct r as [w1 o]. simpl. intros Hs.
  destruct o as [| | |[] [res|]]; simpl; try done;
    by apply store_step_then_show.
Qed.

Lemma set_answer_step w u cur v qd :
  active_quizzes w !! u = Some qd → is_current qd cur →
  edits (entry qd cur) v →
  store_step w (set_answer w u (id cur) v) u.
Proof.
  intros E Hc He. unfold set_answer. rewrite E. split; [done|].
  right; right. exists (record qd cur v). split; [|done].
  rewrite E. by apply (next_edit _ _ qd cur v).
Qed.

Lemma get_answer_entry w u qd cur :
  active_quizzes w !! u = Some qd → get_answer w u (id cur) = entry qd cur.
Proof. intros E. unfold get_answer. by rewrite E. Qed.

Lemma handle_test_button_step w u data now rnd :
  store_step w (handle_test_button w u data now rnd).1 u.
Proof.
  destruct data as [topic|q i|q i|q|q|]; simpl.
  - pose proof (start_quiz_step w u topic default_question_count now rnd) as Hs.
    destruct (start_quiz w u topic default_question_count now rnd) as [w1 [| |qd]];
      simpl in *; try done. by apply store_step_then_show.
  - destruct (get_current_question w u) as [[cur|]|] eqn:Hc;
      try apply store_step_refl.
    destruct (get_current_question_session _ _ _ Hc) as (qd & E & Hlt & Hi).
    case_decide as Hid; [subst q|apply store_step_refl].
    case_decide; [apply after_submit_step, submit_answer_step|].
    case_decide; [|apply store_step_refl].
    destruct (toggle i (get_answer w u (id cur))) as [v|] eqn:Ht;
      [|apply store_step_refl].
    apply store_step_then_show. eapply set_answer_step; [done..|].
    apply (edit_toggle _ i). by rewrite <- (get_answer_entry w u).
  - destruct (get_current_question w u) as [[cur|]|] eqn:Hc;
      try apply store_step_refl.
    destruct (get_current_question_session _ _ _ Hc) as (qd & E & Hlt & Hi).
    case_decide as Hid; [subst q|apply store_step_refl].
    destruct (append_choice i (get_answer w u (id cur))) as [v|] eqn:Ht;
      [|apply store_step_refl].
    apply store_step_then_show. eapply set_answer_step; [done..|].
    apply (edit_append _ i). by rewrite <- (get_answer_entry w u).
  - destruct (get_current_question w u) as [[cur|]|] eqn:Hc;
      try apply store_step_refl.
    destruct (get_current_question_session _ _ _ Hc) as (qd & E & Hlt & Hi).
    case_decide as Hid; [subst q|apply store_step_refl].
    apply store_step_then_show. eapply set_answer_step; [done..|].
    apply edit_reset.
  - destruct (get_current_question w u) as [[cur|]|] eqn:Hc;
      try apply store_step_refl.
    case_decide as Hid; [subst q|apply store_step_refl].
    apply after_submit_step, submit_answer_step.
  - apply after_submit_step, skip_question_step.
Qed.

(** *** Session invariants *)

Section session_invariant.
Variable T : list (Z * question) → Prop.
Variable P : quiz_data → Prop.
Hypothesis P_next : ∀ table old qd,
  T table → (∀ qd0, old = Some qd0 → P qd0) →
  session_next table old qd → P qd.

Lemma store_step_ok w w' u :
  sessions_ok T P w → store_step w w' u → sessions_ok T P w'.
Proof.
  intros [Ht Hm] [Et Hs]. split; [by rewrite Et|].
  destruct Hs as [->|[->|(qd & Hn & ->)]]; [done| |].
  - by apply map_Forall_delete.
  - apply map_Forall_insert_2; [|done].
    eapply P_next; [done| |done]. intros qd0 E. by apply (Hm u).
Qed.

Lemma handle_test_button_ok w u data now rnd :
  sessions_ok T P w →
  sessions_ok T P (handle_test_button w u data now rnd).1.
Proof. intros H. eapply store_step_ok, handle_test_button_step. done. Qed.

Lemma run_ok ps : ∀ w, sessions_ok T P w → sessions_ok T P (run w ps).
Proof.
  induction ps as [|[[[u d] now] rnd] ps IH]; intros w H; [done|].
  apply IH. by apply handle_test_button_ok.
Qed.
End session_invariant.

Lemma index_in_bounds_next table old qd :
  (∀ qd0, old = Some qd0 → index_in_bounds qd0) →
  session_next table old qd → index_in_bounds qd.
Proof.
  intros Hold Hn. unfold index_in_bounds.
  destruct Hn as [topic k now rnd|qd cur v E Hc He|qd cur v E Hc|qd E Hc].
  - simpl. unfold len. lia.
  - exact (Hold _ E).
  - specialize (Hold _ E). unfold index_in_bounds in Hold.
    destruct Hc as [Hlt _]. unfold advanced, record. simpl.
    destruct (_ <=? _)%Z; simpl; lia.
  - specialize (Hold _ E). unfold index_in_bounds in Hold.
    unfold advanced. simpl. destruct (_ <=? _)%Z; simpl; lia.
Qed.

Lemma index_inv_step w w' u : index_inv w → store_step w w' u → index_inv w'.
Proof.
  intros H Hs.
  apply (store_step_ok (λ _, True) index_in_bounds) with (w := w) (u := u);
    [|done|done].
  intros table old qd _. apply index_in_bounds_next.
Qed.

Lemma index_inv_run ps : ∀ w, index_inv w → index_inv (run w ps).
Proof.
  induction ps as [|[[[u d] now] rnd] ps IH]; intros w H; [done|].
  apply IH. eapply index_inv_step, handle_test_button_step. done.
Qed.

Lemma py_item_in_range {A} (l : list A) (i : Z) :
  0 <= i < len l → is_Some (py_item l i).
Proof.
  intros [H0 H1]. unfold py_item. rewrite (proj2 (Z.leb_le 0 i)) by done.
  apply lookup_lt_is_Some. unfold len in H1. lia.
Qed.

Lemma start_quiz_ok w u topic k now rnd qd :
  (start_quiz w u topic k now rnd).2 = StartOk qd →
  qd = fresh (question_table w) topic k now rnd
  ∧ active_quizzes (start_quiz w u topic k now rnd).1 !! u = Some qd.
Proof.
  unfold start_quiz, fresh.
  destruct ((filter _ (question_table w)).*2) as [|q qs] eqn:E; [done|].
  destruct (Z.ltb_spec (Z.min k (len (q :: qs))) 0); [done|].
  simpl. intros [= <-]. split; [done|]. by rewrite lookup_insert_eq.
Qed.

Lemma advance_index w u qd now qd' :
  active_quizzes (advance w u qd now).1 !! u = Some qd' →
  current_question qd' = current_question qd + 1
  ∧ questions qd' = questions qd ∧ answers qd' = answers qd.
Proof.
  destruct (advance_cases w u qd now) as [_ [->|[-> _]]].
  - rewrite lookup_insert_eq. intros [= <-]. unfold advanced. simpl.
    by destruct (_ <=? _)%Z.
  - by rewrite lookup_delete_eq.
Qed.

Lemma submit_answer_index w u q a now qd qd' :
  active_quizzes w !! u = Some qd → index_in_bounds qd →
  active_quizzes (submit_answer w u q a now).1 !! u = Some qd' →
  current_question qd' =
    if (current_question qd <? len (questions qd))%Z
    then current_question qd + 1 else current_question qd.
Proof.
  intros E [H0 H1]. unfold submit_answer. rewrite E.
  destruct (Z.leb_spec (len (questions qd)) (current_question qd)) as [Hle|Hlt].
  - rewrite (proj2 (Z.ltb_ge _ _)) by done. simpl. rewrite E. by intros [= <-].
  - rewrite (proj2 (Z.ltb_lt _ _)) by done.
    destruct (py_item_in_range (questions qd) (current_question qd)) as [cur ->];
      [lia|].
    intros H. by apply advance_index in H as (-> & _).
Qed.

Lemma skip_question_index w u now qd qd' :
  active_quizzes w !! u = Some qd →
  active_quizzes (skip_question w u now).1 !! u = Some qd' →
  current_question qd' =
    if (current_question qd <? len (questions qd))%Z
    then current_question qd + 1 else current_question qd.
Proof.
  intros E. unfold skip_question. rewrite E.
  destruct (Z.leb_spec (len (questions qd)) (current_question qd)) as [Hle|Hlt].
  - rewrite (proj2 (Z.ltb_ge _ _)) by done. simpl. rewrite E. by intros [= <-].
  - rewrite (proj2 (Z.ltb_lt _ _)) by done.
    intros H. by apply advance_index in H as (-> & _).
Qed.

(** *** The index invariant *)

(** C9: [0 <= current_question <= len(questions)] holds for every session
    after every operation. Whenever it holds of a store it holds again after
    [start_quiz], [submit_answer], [skip_question], [complete_quiz], any
    button press and any run of presses; [start_quiz] stores the new session
    with [current_question = 0]; [submit_answer] and [skip_question] leave a
    session whose index is one more when it was below [len(questions)] and
    the same index otherwise. *)
Theorem current_index_within_bounds (w : world) :
  index_inv w →
  (∀ u topic k now rnd,
     index_inv (start_quiz w u topic k now rnd).1
     ∧ ∀ qd, (start_quiz w u topic k now rnd).2 = StartOk qd →
         active_quizzes (start_quiz w u topic k now rnd).1 !! u = Some qd
         ∧ current_question qd = 0)
  ∧ (∀ u q a now,
       index_inv (submit_answer w u q a now).1
       ∧ ∀ qd qd', active_quizzes w !! u = Some qd →
           active_quizzes (submit_answer w u q a now).1 !! u = Some qd' →
           current_question qd' =
             if (current_question qd <? len (questions qd))%Z
             then current_question qd + 1 else current_question qd)
  ∧ (∀ u now,
       index_inv (skip_question w u now).1
       ∧ ∀ qd qd', active_quizzes w !! u = Some qd →
           active_quizzes (skip_question w u now).1 !! u = Some qd' →
           current_question qd' =
             if (current_question qd <? len (questions qd))%Z
             then current_question qd + 1 else current_question qd)
  ∧ (∀ u now, index_inv (complete_quiz w u now).1)
  ∧ (∀ u data now rnd, index_inv (handle_test_button w u data now rnd).1)
  ∧ (∀ ps, index_inv (run w ps)).
Proof.
  intros Hinv. split_and!.
  - intros u topic k now rnd. split.
    + eapply index_inv_step, start_quiz_step. done.
    + intros qd H. apply start_quiz_ok in H as [-> ?]. done.
  - intros u q a now. split.
    + eapply index_inv_step, submit_answer_step. done.
    + intros qd qd' E. apply submit_answer_index; [done|]. by apply (Hinv u).
  - intros u now. split.
    + eapply index_inv_step, skip_question_step. done.
    + intros qd qd' E. by apply skip_question_index.
  - intros u now. eapply index_inv_step, complete_quiz_step. done.
  - intros u data now rnd.
    eapply index_inv_step, handle_test_button_step. done.
  - intros ps. by apply index_inv_run.
Qed.

Lemma current_index_within_bounds_witness :
  index_inv (run (demo [q_single; q_multiple]) (presses [QuizStart 1; QuizSkip]))
  ∧ ∀ ps, index_inv (run (run (demo [q_single; q_multiple])
                              (presses [QuizStart 1; QuizSkip])) ps).
Proof.
  assert (H : index_inv (run (demo [q_single; q_multiple])
                             (presses [QuizStart 1; QuizSkip]))).
  { apply (bool_decide_unpack _). vm_compute. exact I. }
  split; [exact H|].
  apply (current_index_within_bounds _ H).
Defined.

(** *** Scoring *)

Lemma score_questions_spec ans qs n rs :
  score_questions ans qs = Ok (n, rs) →
  length rs = length qs
  ∧ n = length (filter (λ r, qr_is_correct r = true) rs)
  ∧ ∀ k q, qs !! k = Some q →
      ∃ r, rs !! k = Some r
           ∧ is_correct q (ans !! str (id q)) = Ok (qr_is_correct r)
           ∧ qr_user_answer r = ans !! str (id q)
           ∧ qr_question r = text q
           ∧ qr_correct_answer r = correct_answer q.
Proof.
  revert n rs. induction qs as [|q qs IH]; intros n rs; simpl.
  - intros [= <- <-]. by split_and!.
  - destruct (is_correct q (ans !! str (id q))) as [b|e] eqn:Eb; [|done].
    destruct (score_questions ans qs) as [[n' rs']|e]; [|done].
    intros [= <- <-]. destruct (IH n' rs' eq_refl) as (Hl & Hn & Hk).
    split_and!.
    + simpl. by rewrite Hl.
    + rewrite filter_cons. simpl. destruct b.
      * rewrite decide_True by done. simpl. by rewrite Hn.
      * by rewrite decide_False by done.
    + intros [|k] q'; simpl.
      * intros [= <-]. eexists. by split_and!.
      * apply Hk.
Qed.

Lemma is_correct_multiple (q : question) (submitted : list atom) :
  question_type q = "multiple" →
  is_correct q (Some (VList submitted))
  = Ok (bool_decide (list_to_set submitted
                     =@{gset atom} list_to_set (correct_answer q))).
Proof.
  intros Ht. unfold is_correct. rewrite Ht.
  rewrite decide_False by discriminate. by rewrite decide_True.
Qed.

Lemma is_correct_sequence (q : question) (submitted : list atom) :
  question_type q = "sequence" →
  is_correct q (Some (VList submitted))
  = Ok (bool_decide (submitted = correct_answer q)).
Proof.
  intros Ht. unfold is_correct. rewrite Ht.
  rewrite !decide_False by discriminate. by rewrite decide_True.
Qed.

Lemma set_eq_members (l1 l2 : list atom) :
  list_to_set l1 =@{gset atom} list_to_set l2 ↔ ∀ x, x ∈ l1 ↔ x ∈ l2.
Proof. set_solver. Qed.

(** C6: a multiple-type question is scored correct exactly when the set of
    submitted items equals the set of the correct items; scoring never fails
    on a submitted list. Against the correct set {0,2}: {0,2} is correct (in
    either order of selection), {0} and {0,1,2} are incorrect. *)
Theorem multiple_scoring_is_set_equality (q : question) (submitted : list atom) :
  question_type q = "multiple" →
  (∃ b, is_correct q (Some (VList submitted)) = Ok b
        ∧ (b = true ↔ list_to_set submitted
                        =@{gset atom} list_to_set (correct_answer q))
        ∧ (b = true ↔ ∀ x, x ∈ submitted ↔ x ∈ correct_answer q))
  ∧ (correct_answer q = [AInt 0; AInt 2] →
     is_correct q (Some (VList [AInt 0; AInt 2])) = Ok true
     ∧ is_correct q (Some (VList [AInt 2; AInt 0])) = Ok true
     ∧ is_correct q (Some (VList [AInt 0])) = Ok false
     ∧ is_correct q (Some (VList [AInt 0; AInt 1; AInt 2])) = Ok false).
Proof.
  intros Ht. split.
  - eexists. split; [by apply is_correct_multiple|].
    rewrite <- set_eq_members. split; apply bool_decide_eq_true.
  - intros Hc. rewrite !is_correct_multiple by done. rewrite Hc.
    by vm_compute.
Qed.

Lemma multiple_scoring_is_set_equality_witness :
  question_type q_multiple = "multiple"
  ∧ is_correct q_multiple (Some (VList [AInt 0])) = Ok false.
Proof.
  split; [reflexivity|].
  apply (multiple_scoring_is_set_equality q_multiple [] eq_refl).
  reflexivity.
Defined.

Lemma seq_items_inj (l1 l2 : list Z) : seq_items l1 = seq_items l2 → l1 = l2.
Proof.
  revert l2. induction l1 as [|x l1 IH]; intros [|y l2] H; try done.
  injection H as Hx Hl. f_equal; [by apply str_inj|by apply IH].
Qed.

Lemma seq_items_snoc (l : list Z) (i : Z) :
  seq_items (l ++ [i]) = seq_items l ++ [AStr (str i)].
Proof. unfold seq_items. by rewrite fmap_app. Qed.

(** Pressing the sequence buttons of the current question appends the picks,
    in order, to what was accumulated. *)
Lemma run_seq_presses u cur now rnd picks : ∀ w l,
  get_current_question w u = Ok (Some cur) →
  get_answer w u (id cur) = VList l →
  get_current_question (run w (seq_presses u (id cur) picks now rnd)) u
    = Ok (Some cur)
  ∧ get_answer (run w (seq_presses u (id cur) picks now rnd)) u (id cur)
    = VList (l ++ seq_items picks).
Proof.
  induction picks as [|i picks IH]; intros w l Hc Ha.
  - simpl. by rewrite app_nil_r.
  - change (run w (seq_presses u (id cur) (i :: picks) now rnd))
      with (run (handle_test_button w u (QuizSeq (id cur) i) now rnd).1
                (seq_presses u (id cur) picks now rnd)).
    rewrite (handle_seq_current w u now rnd cur i l) by done.
    change (?a, ?b).1 with a.
    destruct (get_current_question_session _ _ _ Hc) as (qd & E & _).
    destruct (IH (set_answer w u (id cur) (VList (l ++ [AStr (str i)])))
                 (l ++ [AStr (str i)])) as [H1 H2].
    + by rewrite get_current_question_set_answer.
    + by apply get_answer_set_answer.
    + split; [done|]. rewrite H2. by rewrite <- app_assoc.
Qed.

(** X19: a sequence-type question is scored correct exactly when the
    submitted list equals the stored list, item by item (an int never equals
    a str), and scoring never fails on a submitted list. The [quiz_seq_]
    presses for the indices [picks] accumulate [seq_items picks], a list of
    strs; against a correct sequence stored as strs, [seq_items correct], as
    the admin dialogue stores it, this is scored correct exactly when
    [picks = correct]: [2,0,1] against ["2","0","1"] is correct, and every
    other order of the three indices is incorrect. *)
Theorem sequence_scoring_is_list_equality (q : question) :
  question_type q = "sequence" →
  (∀ submitted, ∃ b,
      is_correct q (Some (VList submitted)) = Ok b
      ∧ (b = true ↔ submitted = correct_answer q))
  ∧ (∀ w u now rnd picks,
       get_current_question w u = Ok (Some q) →
       get_answer w u (id q) = VList [] →
       get_answer (run w (seq_presses u (id q) picks now rnd)) u (id q)
       = VList (seq_items picks))
  ∧ (∀ picks correct,
       correct_answer q = seq_items correct →
       is_correct q (Some (VList (seq_items picks)))
       = Ok (bool_decide (picks = correct)))
  ∧ (correct_answer q = seq_items [2; 0; 1] →
     is_correct q (Some (VList (seq_items [2; 0; 1]))) = Ok true
     ∧ ∀ picks, picks ≠ [2; 0; 1] →
         is_correct q (Some (VList (seq_items picks))) = Ok false).
Proof.
  intros Ht.
  assert (Hgen : ∀ picks correct,
    correct_answer q = seq_items correct →
    is_correct q (Some (VList (seq_items picks)))
    = Ok (bool_decide (picks = correct))).
  { intros picks correct Hc. rewrite is_correct_sequence by done.
    rewrite Hc. f_equal. apply bool_decide_ext. split; [|by intros ->].
    apply seq_items_inj. }
  split_and!.
  - intros submitted. eexists. split; [by apply is_correct_sequence|].
    apply bool_decide_eq_true.
  - intros w u now rnd picks Hc Ha.
    by destruct (run_seq_presses u q now rnd picks w [] Hc Ha) as [_ ->].
  - exact Hgen.
  - intros Hc. split.
    + by rewrite (Hgen _ _ Hc), bool_decide_eq_true_2.
    + intros picks Hne. by rewrite (Hgen _ _ Hc), bool_decide_eq_false_2.
Qed.

Lemma sequence_scoring_is_list_equality_witness :
  question_type q_sequence = "sequence"
  ∧ is_correct q_sequence (Some (VList (seq_items [0; 2; 1]))) = Ok false.
Proof.
  split; [reflexivity|].
  apply (sequence_scoring_is_list_equality q_sequence eq_refl);
    [reflexivity|discriminate].
Defined.

(** The same through the buttons: user 42 starts topic 1, picks 2, 0, 1 and
    confirms, against the stored sequence ["2","0","1"]; then with two picks
    transposed. *)
Example sequence_confirmed_in_order :
  (handle_test_button
     (run (demo [q_sequence])
          (presses [QuizStart 1; QuizSeq 3 2; QuizSeq 3 0; QuizSeq 3 1]))
     42 (QuizConfirm 3) 0 []).2
  = TestResults (CompleteOk 1 1 (percentage_of 1 1)
      [{| qr_question := "q3";
          qr_user_answer := Some (VList [AStr "2"; AStr "0"; AStr "1"]);
          qr_correct_answer := [AStr "2"; AStr "0"; AStr "1"];
          qr_is_correct := true; qr_explanation := None |}]).
Proof. by vm_compute. Qed.

Example sequence_confirmed_transposed :
  (handle_test_button
     (run (demo [q_sequence])
          (presses [QuizStart 1; QuizSeq 3 0; QuizSeq 3 2; QuizSeq 3 1]))
     42 (QuizConfirm 3) 0 []).2
  = TestResults (CompleteOk 0 1 (percentage_of 0 1)
      [{| qr_question := "q3";
          qr_user_answer := Some (VList [AStr "0"; AStr "2"; AStr "1"]);
          qr_correct_answer := [AStr "2"; AStr "0"; AStr "1"];
          qr_is_correct := false; qr_explanation := None |}]).
Proof. by vm_compute. Qed.

(** A correct sequence stored as ints (a JSON import can do so) is never
    matched by what the buttons accumulate, which are strs. *)
Remark sequence_of_ints_never_matched (q : question) (picks correct : list Z) :
  question_type q = "sequence" →
  correct_answer q = AInt <$> correct → correct ≠ [] →
  is_correct q (Some (VList (seq_items picks))) = Ok false.
Proof.
  intros Ht Hc Hne. rewrite is_correct_sequence by done. rewrite Hc.
  f_equal. apply bool_decide_eq_false_2. intros H.
  destruct correct as [|c correct]; [done|]. by destruct picks.
Qed.

(** C2, at the failing input: the sequence question 4 has its correct order
    stored as the JSON numbers [2, 0, 1], the form the import's own format
    shows for [correct_answer] and which [validate_question_data] accepts.
    User 42 starts the quiz and picks 2, 0, 1: the accumulated list is
    ["2","0","1"], and the confirm scores it incorrect, 0 of 1. No order of
    picks is ever scored correct against this question, while the same picks
    against the same order stored as strs (question 3) are scored correct. *)
Theorem sequence_of_ints_is_scored_incorrect :
  validate_question_data q_sequence_ints = true
  ∧ correct_answer q_sequence_ints = [AInt 2; AInt 0; AInt 1]
  ∧ get_current_question
      (run (demo [q_sequence_ints])
           (presses [QuizStart 1; QuizSeq 4 2; QuizSeq 4 0; QuizSeq 4 1]))
      42 = Ok (Some q_sequence_ints)
  ∧ get_answer
      (run (demo [q_sequence_ints])
           (presses [QuizStart 1; QuizSeq 4 2; QuizSeq 4 0; QuizSeq 4 1]))
      42 4 = VList [AStr "2"; AStr "0"; AStr "1"]
  ∧ (handle_test_button
       (run (demo [q_sequence_ints])
            (presses [QuizStart 1; QuizSeq 4 2; QuizSeq 4 0; QuizSeq 4 1]))
       42 (QuizConfirm 4) 0 []).2
    = TestResults (CompleteOk 0 1 (percentage_of 0 1)
        [{| qr_question := "q4";
            qr_user_answer := Some (VList [AStr "2"; AStr "0"; AStr "1"]);
            qr_correct_answer := [AInt 2; AInt 0; AInt 1];
            qr_is_correct := false; qr_explanation := None |}])
  ∧ (∀ picks : list Z,
       is_correct q_sequence_ints (Some (VList (seq_items picks))) = Ok false)
  ∧ (handle_test_button
       (run (demo [q_sequence])
            (presses [QuizStart 1; QuizSeq 3 2; QuizSeq 3 0; QuizSeq 3 1]))
       42 (QuizConfirm 3) 0 []).2
    = TestResults (CompleteOk 1 1 (percentage_of 1 1)
        [{| qr_question := "q3";
            qr_user_answer := Some (VList [AStr "2"; AStr "0"; AStr "1"]);
            qr_correct_answer := [AStr "2"; AStr "0"; AStr "1"];
            qr_is_correct := true; qr_explanation := None |}]).
Proof.
  split_and!; try by vm_compute.
  intros picks.
  by apply (sequence_of_ints_never_matched q_sequence_ints picks [2; 0; 1]).
Qed.

(** *** Completion removes the session *)

Lemma complete_quiz_removes w u now w' cc tq pct qr :
  complete_quiz w u now = (w', CompleteOk cc tq pct qr) →
  active_quizzes w' !! u = None.
Proof.
  intros H. destruct (complete_quiz_cases w u now) as [[_ Hno]|(E & _)].
  - rewrite H in Hno. by destruct (Hno cc tq pct qr).
  - rewrite H in E. simpl in E. rewrite E. apply lookup_delete_eq.
Qed.

Lemma advance_removes w u qd now w' cc tq pct qr :
  advance w u qd now = (w', SubmitOk true (Some (CompleteOk cc tq pct qr))) →
  active_quizzes w' !! u = None.
Proof.
  unfold advance. destruct (_ <=? _)%Z; [|done].
  destruct (complete_quiz _ u now) as [w1 r] eqn:Ec.
  destruct r; intros [= <- <- <- <- <-].
  by eapply complete_quiz_removes.
Qed.

Lemma submit_answer_removes w u q a now w' cc tq pct qr :
  submit_answer w u q a now
    = (w', SubmitOk true (Some (CompleteOk cc tq pct qr))) →
  active_quizzes w' !! u = None.
Proof.
  unfold submit_answer. destruct (active_quizzes w !! u) as [qd|]; [|done].
  destruct (_ <=? _)%Z; [done|]. destruct (py_item _ _); [|done].
  apply advance_removes.
Qed.

Lemma skip_question_removes w u now w' cc tq pct qr :
  skip_question w u now
    = (w', SubmitOk true (Some (CompleteOk cc tq pct qr))) →
  active_quizzes w' !! u = None.
Proof.
  unfold skip_question. destruct (active_quizzes w !! u) as [qd|]; [|done].
  destruct (_ <=? _)%Z; [done|]. apply advance_removes.
Qed.

Lemma show_question_removes w u now w' cc tq pct qr :
  show_question w u now = (w', TestResults (CompleteOk cc tq pct qr)) →
  active_quizzes w' !! u = None.
Proof.
  unfold show_question. destruct (get_current_question w u) as [[cur|]|];
    [done| |done].
  destruct (complete_quiz w u now) as [w1 r] eqn:Ec.
  destruct r; intros [= <- <- <- <- <-].
  by eapply complete_quiz_removes.
Qed.

Lemma after_submit_removes r u now w' cc tq pct qr :
  (∀ a b c d, r.2 = SubmitOk true (Some (CompleteOk a b c d)) →
              active_quizzes r.1 !! u = None) →
  after_submit r u now = (w', TestResults (CompleteOk cc tq pct qr)) →
  active_quizzes w' !! u = None.
Proof.
  destruct r as [w1 o]. simpl. intros Hr.
  destruct o as [| | |[] [res|]]; try done.
  - intros [= <- ->]. by eapply Hr.
  - apply show_question_removes.
  - apply show_question_removes.
Qed.

Lemma handle_test_button_removes w u data now rnd w' cc tq pct qr :
  handle_test_button w u data now rnd
    = (w', TestResults (CompleteOk cc tq pct qr)) →
  active_quizzes w' !! u = None.
Proof.
  destruct data as [topic|q i|q i|q|q|]; simpl.
  - destruct (start_quiz w u topic default_question_count now rnd)
      as [w1 [| |qd]]; try done. apply show_question_removes.
  - destruct (get_current_question w u) as [[cur|]|]; try done.
    repeat case_decide; try done.
    + apply after_submit_removes. intros a b c d Hs.
      eapply submit_answer_removes. by rewrite <- Hs, <- surjective_pairing.
    + destruct (toggle _ _); [|done]. apply show_question_removes.
  - destruct (get_current_question w u) as [[cur|]|]; try done.
    case_decide; [|done]. destruct (append_choice _ _); [|done].
    apply show_question_removes.
  - destruct (get_current_question w u) as [[cur|]|]; try done.
    case_decide; [|done]. apply show_question_removes.
  - destruct (get_current_question w u) as [[cur|]|]; try done.
    case_decide; [|done].
    apply after_submit_removes. intros a b c d Hs.
    eapply submit_answer_removes. by rewrite <- Hs, <- surjective_pairing.
  - apply after_submit_removes. intros a b c d Hs.
    eapply skip_question_removes. by rewrite <- Hs, <- surjective_pairing.
Qed.

(** C7: when a user's session completes successfully it is removed from
    [active_quizzes]; afterwards [get_current_question] returns [None] for
    that user and [submit_answer] (like [skip_question] and [complete_quiz])
    fails with "no active quiz", leaving the store as it is. *)
Theorem completion_removes_session (w w' : world) (u : Z) :
  completes w u w' →
  active_quizzes w' !! u = None
  ∧ get_current_question w' u = Ok None
  ∧ (∀ q a now, submit_answer w' u q a now = (w', SubmitNoActive))
  ∧ (∀ now, skip_question w' u now = (w', SubmitNoActive))
  ∧ (∀ now, complete_quiz w' u now = (w', CompleteNoActive)).
Proof.
  intros Hc.
  assert (E : active_quizzes w' !! u = None).
  { destruct Hc as [now cc tq pct qr H|q a now cc tq pct qr H
                   |now cc tq pct qr H|data now rnd cc tq pct qr H].
    - by eapply complete_quiz_removes.
    - by eapply submit_answer_removes.
    - by eapply skip_question_removes.
    - by eapply handle_test_button_removes. }
  unfold get_current_question, submit_answer, skip_question, complete_quiz.
  by rewrite E.
Qed.

Lemma completion_removes_session_witness :
  completes (run (demo [q_single]) (presses [QuizStart 1])) 42
            (handle_test_button (run (demo [q_single]) (presses [QuizStart 1]))
                                42 (QuizAnswer 1 2) 0 []).1
  ∧ get_current_question
      (handle_test_button (run (demo [q_single]) (presses [QuizStart 1]))
                          42 (QuizAnswer 1 2) 0 []).1 42 = Ok None.
Proof.
  assert (H : completes (run (demo [q_single]) (presses [QuizStart 1])) 42
            (handle_test_button (run (demo [q_single]) (presses [QuizStart 1]))
                                42 (QuizAnswer 1 2) 0 []).1).
  { apply (completes_by_button _ _ _ (QuizAnswer 1 2) 0 [] 1%nat 1%nat
             (percentage_of 1 1)
             [{| qr_question := "q1"; qr_user_answer := Some (VInt 2);
                 qr_correct_answer := [AInt 2]; qr_is_correct := true;
                 qr_explanation := None |}]).
    vm_compute. reflexivity. }
  split; [exact H|].
  apply (completion_removes_session _ _ _ H).
Defined.

(** *** Stale buttons *)

Lemma submit_answer_ignores_question_id w u q q' a now :
  submit_answer w u q a now = submit_answer w u q' a now.
Proof. reflexivity. Qed.

Lemma advance_session w u qd now qd' :
  active_quizzes (advance w u qd now).1 !! u = Some qd' → qd' = advanced qd.
Proof.
  destruct (advance_cases w u qd now) as [_ [->|[-> _]]].
  - rewrite lookup_insert_eq. by intros [= <-].
  - by rewrite lookup_delete_eq.
Qed.

Lemma submit_answer_current w u q a now qd cur :
  active_quizzes w !! u = Some qd → is_current qd cur →
  submit_answer w u q a now = advance w u (record qd cur a) now.
Proof.
  intros E [Hlt Hi]. unfold submit_answer. rewrite E.
  rewrite (proj2 (Z.leb_gt _ _)) by done. by rewrite Hi.
Qed.

Lemma current_question_is_current w u cur :
  get_current_question w u = Ok (Some cur) →
  ∃ qd, active_quizzes w !! u = Some qd ∧ is_current qd cur.
Proof.
  intros H. destruct (get_current_question_session _ _ _ H) as (qd & E & Hc).
  by exists qd.
Qed.




(** *** Confirming a sequence *)

Lemma show_question_session w u now qd' :
  active_quizzes (show_question w u now).1 !! u = Some qd' →
  active_quizzes w !! u = Some qd'.
Proof.
  destruct (show_question_step w u now) as [_ [->| ->]]; [done|].
  by rewrite lookup_delete_eq.
Qed.

Lemma after_submit_session r u now qd' :
  active_quizzes (after_submit r u now).1 !! u = Some qd' →
  active_quizzes r.1 !! u = Some qd'.
Proof.
  destruct r as [w1 o]. simpl.
  destruct o as [| | |[] [res|]]; simpl; try done;
    apply show_question_session.
Qed.

Lemma after_submit_replies r u now : (after_submit r u now).2 ≠ Ignored.
Proof.
  destruct r as [w1 o]. simpl.
  assert (Hs : ∀ w, (show_question w u now).2 ≠ Ignored).
  { intros w. unfold show_question.
    destruct (get_current_question w u) as [[cur|]|]; try done.
    by destruct (complete_quiz w u now) as [w' []]. }
  destruct o as [| | |[] [res|]]; simpl; try done; apply Hs.
Qed.

(** The counterexample to C3: a sequence question with three options, one
    pick accumulated; the confirm is accepted, the one-item list is recorded
    and the next question is shown. *)
Lemma short_sequence_is_confirmed :
  get_current_question
    (run (demo [q_sequence; q_single]) (presses [QuizStart 1; QuizSeq 3 2]))
    42 = Ok (Some q_sequence)
  ∧ length (options q_sequence) = 3%nat
  ∧ get_answer
      (run (demo [q_sequence; q_single]) (presses [QuizStart 1; QuizSeq 3 2]))
      42 3 = VList [AStr "2"]
  ∧ (handle_test_button
       (run (demo [q_sequence; q_single]) (presses [QuizStart 1; QuizSeq 3 2]))
       42 (QuizConfirm 3) 0 []).2 = Question q_single
  ∧ (λ qd, (current_question qd, answers qd !! "3")) <$>
      (active_quizzes
         (handle_test_button
            (run (demo [q_sequence; q_single])
                 (presses [QuizStart 1; QuizSeq 3 2]))
            42 (QuizConfirm 3) 0 []).1 !! 42)
    = Some (1, Some (VList [AStr "2"])).
Proof. split_and!; by vm_compute. Qed.

Lemma advance_next w u qd now :
  current_question qd + 1 < len (questions qd) →
  advance w u qd now
  = (set_quizzes w (<[u := advanced qd]> (active_quizzes w)),
     SubmitOk false None).
Proof.
  intros H. unfold advance, advanced. simpl.
  by rewrite (proj2 (Z.leb_gt _ _)) by done.
Qed.

Lemma advance_last w u qd now :
  len (questions qd) <= current_question qd + 1 →
  advance w u qd now
  = match complete_quiz
            (set_quizzes w (<[u := advanced qd]> (active_quizzes w))) u now with
    | (w', CompleteRaise e) => (w', SubmitRaise e)
    | (w', r) => (w', SubmitOk true (Some r))
    end.
Proof.
  intros H. unfold advance, advanced. simpl.
  by rewrite (proj2 (Z.leb_le _ _)) by done.
Qed.

(** Below the last index, the item after an item that exists exists too
    (also for the negative indices, which count from the end). *)
Lemma py_item_succ {A} (l : list A) (i : Z) (x : A) :
  py_item l i = Some x → i + 1 < len l → is_Some (py_item l (i + 1)).
Proof.
  unfold py_item, len. intros Hi Hlt.
  destruct (Z.leb_spec 0 i) as [H0|H0].
  - rewrite (proj2 (Z.leb_le 0 (i + 1))) by lia.
    apply lookup_lt_is_Some. lia.
  - destruct (Z.leb_spec 0 (Z.of_nat (length l) + i)) as [H1|H1]; [|done].
    destruct (Z.leb_spec 0 (i + 1)) as [H2|H2].
    + apply lookup_lt_is_Some. lia.
    + rewrite (proj2 (Z.leb_le 0 (Z.of_nat (length l) + (i + 1)))) by lia.
      apply lookup_lt_is_Some. lia.
Qed.

(** C3, amended: on the current question the confirm is accepted whatever
    the length of the accumulated list, the empty list included: the handler
    submits the accumulated list as the answer, and the press is answered.
    In the store [confirmed] the list is recorded as the question's answer
    and the index has moved on by one. When questions remain, that store is
    the result and the next question is shown. When it was the last question,
    the session is marked completed and [complete_quiz] runs on that store:
    what it returns is the reply (the error message when scoring raises), and
    when it returns the results payload the session is removed and the
    question's result carries the accumulated list as the user's answer; in
    every other case the store [confirmed] is the result, the session staying
    in it. *)
Theorem confirm_accepts_any_length (w : world) (u : Z) (cur : question)
    (qd : quiz_data) (now : Z) (rnd : list nat) :
  active_quizzes w !! u = Some qd →
  get_current_question w u = Ok (Some cur) →
  handle_test_button w u (QuizConfirm (id cur)) now rnd
  = after_submit (submit_answer w u (id cur) (entry qd cur) now) u now
  ∧ (handle_test_button w u (QuizConfirm (id cur)) now rnd).2 ≠ Ignored
  ∧ (∀ qd', active_quizzes
              (handle_test_button w u (QuizConfirm (id cur)) now rnd).1 !! u
            = Some qd' →
       current_question qd' = current_question qd + 1
       ∧ answers qd' !! str (id cur) = Some (entry qd cur))
  ∧ (∃ qd1, active_quizzes (confirmed w u qd cur) !! u = Some qd1
            ∧ answers qd1 = <[str (id cur) := entry qd cur]> (answers qd)
            ∧ current_question qd1 = current_question qd + 1
            ∧ questions qd1 = questions qd
            ∧ (len (questions qd) <= current_question qd + 1 →
               is_completed qd1 = true))
  ∧ (current_question qd + 1 < len (questions qd) →
     ∃ next, py_item (questions qd) (current_question qd + 1) = Some next
             ∧ handle_test_button w u (QuizConfirm (id cur)) now rnd
               = (confirmed w u qd cur, Question next))
  ∧ (len (questions qd) <= current_question qd + 1 →
     handle_test_button w u (QuizConfirm (id cur)) now rnd
     = match complete_quiz (confirmed w u qd cur) u now with
       | (w', CompleteRaise _) => (w', ErrorMessage)
       | (w', r) => (w', TestResults r)
       end)
  ∧ (∀ cc tq pct qr,
       (handle_test_button w u (QuizConfirm (id cur)) now rnd).2
       = TestResults (CompleteOk cc tq pct qr) →
       len (questions qd) <= current_question qd + 1
       ∧ active_quizzes
           (handle_test_button w u (QuizConfirm (id cur)) now rnd).1 !! u
         = None
       ∧ ∀ k, questions qd !! k = Some cur →
           ∃ r, qr !! k = Some r
                ∧ qr_user_answer r = Some (entry qd cur))
  ∧ ((∀ cc tq pct qr,
        (handle_test_button w u (QuizConfirm (id cur)) now rnd).2
        ≠ TestResults (CompleteOk cc tq pct qr)) →
     (handle_test_button w u (QuizConfirm (id cur)) now rnd).1
     = confirmed w u qd cur).
Proof.
  intros E Hc.
  destruct (current_question_is_current _ _ _ Hc) as (qd0 & E0 & Hcur).
  assert (qd0 = qd) as -> by congruence.
  assert (Hh : handle_test_button w u (QuizConfirm (id cur)) now rnd
               = after_submit (advance w u (record qd cur (entry qd cur)) now)
                              u now).
  { rewrite (handle_confirm_current w u now rnd cur Hc).
    rewrite (get_answer_entry w u qd cur E).
    by rewrite (submit_answer_current w u _ _ now qd cur). }
  assert (Hnext : current_question qd + 1 < len (questions qd) →
     ∃ next, py_item (questions qd) (current_question qd + 1) = Some next
             ∧ handle_test_button w u (QuizConfirm (id cur)) now rnd
               = (confirmed w u qd cur, Question next)).
  { intros Hlt. destruct Hcur as [_ Hi].
    destruct (py_item_succ _ _ _ Hi Hlt) as [next Hn]. exists next.
    split; [done|]. rewrite Hh, advance_next by done. simpl.
    unfold show_question, get_current_question, confirmed. simpl.
    rewrite lookup_insert_eq. unfold advanced, record. simpl.
    rewrite !(proj2 (Z.leb_gt (len (questions qd)) (current_question qd + 1)))
      by done.
    simpl.
    rewrite !(proj2 (Z.leb_gt (len (questions qd)) (current_question qd + 1)))
      by done.
    by rewrite Hn. }
  assert (Hlast : len (questions qd) <= current_question qd + 1 →
     handle_test_button w u (QuizConfirm (id cur)) now rnd
     = match complete_quiz (confirmed w u qd cur) u now with
       | (w', CompleteRaise _) => (w', ErrorMessage)
       | (w', r) => (w', TestResults r)
       end).
  { intros Hle. rewrite Hh, advance_last by done. unfold confirmed.
    destruct (complete_quiz _ u now) as [w' r]. by destruct r. }
  split_and!.
  - rewrite (handle_confirm_current w u now rnd cur Hc).
    by rewrite (get_answer_entry w u qd cur E).
  - rewrite Hh. apply after_submit_replies.
  - intros qd' H. rewrite Hh in H. apply after_submit_session in H.
    apply advance_session in H as ->. unfold advanced, record. simpl.
    destruct (_ <=? _)%Z; simpl; (split; [done|apply lookup_insert_eq]).
  - exists (advanced (record qd cur (entry qd cur))). unfold confirmed. simpl.
    rewrite lookup_insert_eq. unfold advanced, record. simpl.
    destruct (Z.leb_spec (len (questions qd)) (current_question qd + 1));
      simpl; split_and!; try done; lia.
  - exact Hnext.
  - exact Hlast.
  - intros cc tq pct qr Hr.
    destruct (Z.le_gt_cases (len (questions qd)) (current_question qd + 1))
      as [Hle|Hgt].
    2: { destruct (Hnext ltac:(lia)) as (next & _ & En).
         rewrite En in Hr. discriminate. }
    split; [done|]. split.
    + eapply (handle_test_button_removes w u (QuizConfirm (id cur)) now rnd).
      rewrite <- Hr. apply surjective_pairing.
    + intros k Hk. rewrite (Hlast Hle) in Hr.
      unfold complete_quiz, confirmed in Hr. simpl in Hr.
      rewrite lookup_insert_eq in Hr.
      destruct (score_questions _ _) as [[cc0 rs0]|e] eqn:Es; [|done].
      destruct (users w !! u) as [usr|]; [|done].
      simpl in Hr. injection Hr as <- <- <- <-.
      destruct (score_questions_spec _ _ _ _ Es) as (_ & _ & Hs).
      destruct (Hs k cur) as (r & Hrk & _ & Hua & _).
      { unfold advanced, record. simpl. by destruct (_ <=? _)%Z. }
      exists r. split; [done|]. rewrite Hua.
      unfold advanced, record. simpl.
      destruct (_ <=? _)%Z; simpl; apply lookup_insert_eq.
  - intros Hno.
    destruct (Z.le_gt_cases (len (questions qd)) (current_question qd + 1))
      as [Hle|Hgt].
    2: { destruct (Hnext ltac:(lia)) as (next & _ & En). by rewrite En. }
    rewrite (Hlast Hle) in Hno |- *.
    destruct (complete_quiz_cases (confirmed w u qd cur) u now)
      as [[Ew _]|(_ & _ & a & b & c & d & Er)];
      destruct (complete_quiz (confirmed w u qd cur) u now) as [w' r];
      simpl in *.
    + subst w'. by destruct r.
    + subst r. by destruct (Hno a b c d).
Qed.

Lemma confirm_accepts_any_length_witness :
  active_quizzes
    (run (demo [q_sequence]) (presses [QuizStart 1; QuizSeq 3 2])) !! 42
  = Some {| topic_id := 1; questions := [q_sequence]; current_question := 0;
            answers := {[ "3" := VList [AStr "2"] ]}; start_time := 0;
            is_completed := false |}
  ∧ get_current_question
      (run (demo [q_sequence]) (presses [QuizStart 1; QuizSeq 3 2])) 42
    = Ok (Some q_sequence)
  ∧ active_quizzes
      (handle_test_button
         (run (demo [q_sequence]) (presses [QuizStart 1; QuizSeq 3 2]))
         42 (QuizConfirm (id q_sequence)) 0 []).1 !! 42
    = None.
Proof.
  assert (E : active_quizzes
      (run (demo [q_sequence]) (presses [QuizStart 1; QuizSeq 3 2])) !! 42
    = Some {| topic_id := 1; questions := [q_sequence]; current_question := 0;
              answers := {[ "3" := VList [AStr "2"] ]}; start_time := 0;
              is_completed := false |}) by (vm_compute; reflexivity).
  assert (H : get_current_question
      (run (demo [q_sequence]) (presses [QuizStart 1; QuizSeq 3 2])) 42
    = Ok (Some q_sequence)) by (vm_compute; reflexivity).
  split; [exact E|]. split; [exact H|].
  destruct (confirm_accepts_any_length _ 42 q_sequence _ 0 [] E H)
    as (_ & _ & _ & _ & _ & _ & Hres & _).
  eapply Hres. vm_compute. reflexivity.
Defined.

(** *** Repeated picks *)

(** The [quiz_seq_] press on the current question appends its index whether
    or not the index is already in the list. *)
Lemma seq_press_appends w u cur now rnd i l :
  get_current_question w u = Ok (Some cur) →
  get_answer w u (id cur) = VList l →
  get_answer (handle_test_button w u (QuizSeq (id cur) i) now rnd).1
             u (id cur)
  = VList (l ++ [AStr (str i)]).
Proof.
  intros Hc Ha.
  rewrite (handle_seq_current w u now rnd cur i l Hc Ha). simpl.
  apply get_answer_set_answer.
  destruct (current_question_is_current _ _ _ Hc) as (qd & E & _). by eexists.
Qed.

(** C4, at the failing input: user 42 on the sequence question 3 presses
    option 0 twice, and the accumulated list is ["0","0"]. *)
Theorem repeated_choice_is_appended :
  get_current_question (run (demo [q_sequence]) (presses [QuizStart 1])) 42
  = Ok (Some q_sequence)
  ∧ get_answer (run (demo [q_sequence]) (presses [QuizStart 1; QuizSeq 3 0]))
               42 3 = VList [AStr "0"]
  ∧ get_answer (run (demo [q_sequence])
                    (presses [QuizStart 1; QuizSeq 3 0; QuizSeq 3 0]))
               42 3 = VList [AStr "0"; AStr "0"].
Proof. split_and!; by vm_compute. Qed.

(** *** Skipping *)

Lemma score_questions_unanswered ans qs :
  (∀ q, q ∈ qs → ans !! str (id q) = None) →
  score_questions ans qs = Ok (0%nat, blank_results qs).
Proof.
  induction qs as [|q qs IH]; intros H; [done|]. simpl.
  rewrite (H q) by apply list_elem_of_here. simpl.
  rewrite IH; [done|]. intros q' Hq'. apply H. by apply list_elem_of_further.
Qed.

Lemma skip_question_session w u now qd qd' :
  active_quizzes w !! u = Some qd →
  active_quizzes (skip_question w u now).1 !! u = Some qd' →
  answers qd' = answers qd ∧ questions qd' = questions qd.
Proof.
  intros E. unfold skip_question. rewrite E.
  destruct (_ <=? _)%Z.
  - simpl. rewrite E. by intros [= <-].
  - intros H. by apply advance_index in H as (_ & -> & ->).
Qed.

Lemma complete_quiz_unanswered w u now qd :
  active_quizzes w !! u = Some qd → unanswered qd →
  (complete_quiz w u now).2
  = match users w !! u with
    | Some _ => CompleteOk 0 (length (questions qd))
                           (percentage_of 0 (length (questions qd)))
                           (blank_results (questions qd))
    | None => CompleteUserNotFound
    end.
Proof.
  intros E Hu. unfold complete_quiz. rewrite E.
  rewrite score_questions_unanswered by done. by destruct (users w !! u).
Qed.

Lemma skips_to_completion u now k : ∀ w qd,
  active_quizzes w !! u = Some qd → unanswered qd →
  current_question qd + Z.of_nat k + 1 = len (questions qd) →
  (skip_question (skips w u now k) u now).2
  = SubmitOk true
      (Some match users w !! u with
            | Some _ => CompleteOk 0 (length (questions qd))
                                   (percentage_of 0 (length (questions qd)))
                                   (blank_results (questions qd))
            | None => CompleteUserNotFound
            end).
Proof.
  induction k as [|k IH]; intros w qd E Hu Hk.
  - simpl. unfold skip_question. rewrite E.
    rewrite (proj2 (Z.leb_gt _ _)) by lia.
    rewrite advance_last by lia.
    match goal with |- context [complete_quiz ?w1 u now] =>
      pose proof (complete_quiz_unanswered w1 u now (advanced qd)) as Hc;
      destruct (complete_quiz w1 u now) as [w' r] end.
    simpl in Hc. rewrite Hc.
    + unfold advanced. simpl. destruct (_ <=? _)%Z; simpl;
        by destruct (users w !! u).
    + by rewrite lookup_insert_eq.
    + unfold unanswered, advanced. simpl. by destruct (_ <=? _)%Z.
  - simpl.
    assert (Hs : skip_question w u now
                 = (set_quizzes w (<[u := set_current qd (current_question qd + 1)]>
                                     (active_quizzes w)),
                    SubmitOk false None)).
    { unfold skip_question. rewrite E.
      rewrite (proj2 (Z.leb_gt _ _)) by lia.
      unfold advance. simpl. by rewrite (proj2 (Z.leb_gt _ _)) by lia. }
    rewrite Hs. simpl.
    apply (IH (set_quizzes w (<[u := set_current qd (current_question qd + 1)]>
                                (active_quizzes w)))
              (set_current qd (current_question qd + 1))).
    + simpl. by rewrite lookup_insert_eq.
    + done.
    + simpl. lia.
Qed.

(** The counterexample to C5: a selection toggled before the skip stays in
    [answers] and is scored. With two questions, the skipped question 2 keeps
    its entry [0]; with question 2 alone, toggling 0 and 2 and then skipping
    every question of the session ends with [correct_count = 1]. *)
Lemma skipped_selection_is_scored :
  answers <$> (active_quizzes
      (skip_question
         (run (demo [q_multiple; q_single]) (presses [QuizStart 1; QuizAnswer 2 0]))
         42 0).1 !! 42)
  = Some {[ "2" := VList [AInt 0] ]}
  ∧ (skip_question
       (run (demo [q_multiple])
            (presses [QuizStart 1; QuizAnswer 2 0; QuizAnswer 2 2]))
       42 0).2
    = SubmitOk true (Some (CompleteOk 1 1 (percentage_of 1 1)
        [{| qr_question := "q2";
            qr_user_answer := Some (VList [AInt 0; AInt 2]);
            qr_correct_answer := [AInt 0; AInt 2];
            qr_is_correct := true; qr_explanation := None |}])).
Proof. split; by vm_compute. Qed.

(** C5, amended: [skip_question] writes nothing into [answers], so a
    question without an entry before the skip has none after it; at
    completion a question without an entry is scored incorrect and scoring it
    raises nothing; when no question of the session has an entry, the scoring
    loop ends with [correct_count = 0] and every result marked incorrect, and
    skipping every remaining question completes the quiz: the last skip
    returns the results payload with [correct_count = 0] when the user has a
    users row, and the user-not-found failure of [complete_quiz] (no payload)
    when there is none. *)
Theorem skip_records_no_answer (w : world) (u : Z) (qd : quiz_data) (now : Z) :
  active_quizzes w !! u = Some qd →
  (∀ qd', active_quizzes (skip_question w u now).1 !! u = Some qd' →
          answers qd' = answers qd)
  ∧ (∀ q, is_correct q None = Ok false)
  ∧ (unanswered qd →
     score_questions (answers qd) (questions qd)
     = Ok (0%nat, blank_results (questions qd)))
  ∧ (∀ k,
       unanswered qd →
       current_question qd + Z.of_nat k + 1 = len (questions qd) →
       (skip_question (skips w u now k) u now).2
       = SubmitOk true
           (Some match users w !! u with
                 | Some _ =>
                     CompleteOk 0 (length (questions qd))
                                (percentage_of 0 (length (questions qd)))
                                (blank_results (questions qd))
                 | None => CompleteUserNotFound
                 end)).
Proof.
  intros E. split_and!.
  - intros qd' H. by destruct (skip_question_session w u now qd qd' E H).
  - done.
  - apply score_questions_unanswered.
  - intros k Hu Hk. by apply skips_to_completion.
Qed.

Lemma skip_records_no_answer_witness :
  (skip_question
     (skips (run (demo [q_single; q_multiple; q_sequence]) (presses [QuizStart 1]))
            42 0 2) 42 0).2
  = SubmitOk true (Some (CompleteOk 0 3 (percentage_of 0 3)
      (blank_results [q_single; q_multiple; q_sequence]))).
Proof.
  destruct (skip_records_no_answer
              (run (demo [q_single; q_multiple; q_sequence]) (presses [QuizStart 1]))
              42 _ 0 ltac:(vm_compute; reflexivity)) as (_ & _ & _ & H).
  apply (H 2%nat).
  - intros q Hq. reflexivity.
  - reflexivity.
Defined.

(** *** Achievements *)

Lemma achievements_to_check_names pct usr :
  name <$> (achievements_to_check pct usr).*1
  = ["Первый тест"; "Отличник"; "Знаток истории"].
Proof. reflexivity. Qed.

Lemma NoDup_rule_names : NoDup ["Первый тест"; "Отличник"; "Знаток истории"].
Proof. apply (bool_decide_unpack _). by vm_compute. Qed.

Lemma check_achievements_new w u cc tq pct usr :
  users w !! u = Some usr →
  let new_achievements := (check_achievements w u cc tq pct).2 in
  users (check_achievements w u cc tq pct).1
  = <[u := {| results := results usr;
               achievements := achievements usr ++ new_achievements |}]> (users w)
  ∧ NoDup (name <$> new_achievements)
  ∧ (∀ a, a ∈ new_achievements → name a ∉ name <$> achievements usr)
  ∧ (∀ a, a ∈ new_achievements →
          name a ∈ ["Первый тест"; "Отличник"; "Знаток истории"]).
Proof.
  intros Eu. unfold check_achievements. rewrite Eu. simpl.
  split; [done|].
  assert (Hsub : ∀ (P : achievement * bool → Prop) `{∀ x, Decision (P x)}
                   (l : list (achievement * bool)),
            name <$> (filter P l).*1 `sublist_of` name <$> l.*1).
  { intros P Hd l. do 2 apply fmap_sublist. apply sublist_filter. }
  split_and!.
  - eapply sublist_NoDup; [|apply (Hsub _ _ _)].
    rewrite achievements_to_check_names. apply NoDup_rule_names.
  - intros a Ha.
    apply list_elem_of_fmap in Ha as ([a' b] & -> & Ha).
    apply list_elem_of_filter in Ha as [[Hn _] _]. simpl in *.
    intros Hin. apply Hn. by apply elem_of_list_to_set.
  - intros a Ha. rewrite <- (achievements_to_check_names pct usr).
    eapply elem_of_sublist; [apply list_elem_of_fmap_2, Ha|apply Hsub].
Qed.

Lemma check_achievements_inv w u cc tq pct :
  ach_inv w → ach_inv (check_achievements w u cc tq pct).1.
Proof.
  intros Hinv. destruct (users w !! u) as [usr|] eqn:Eu.
  - destruct (check_achievements_new w u cc tq pct usr Eu) as (E & Hnd & Hnew & _).
    unfold ach_inv. rewrite E.
    apply map_Forall_insert_2; [|done]. simpl.
    rewrite fmap_app. apply NoDup_app. split_and!; [by apply (Hinv u)| |done].
    intros n Hn Hn'. apply list_elem_of_fmap in Hn' as (a & -> & Ha).
    by apply (Hnew a).
  - unfold check_achievements. by rewrite Eu.
Qed.

Lemma complete_quiz_inv w u now : ach_inv w → ach_inv (complete_quiz w u now).1.
Proof.
  intros Hinv. unfold complete_quiz.
  destruct (active_quizzes w !! u) as [qd|]; [|done].
  destruct (score_questions _ _) as [[cc rs]|e]; [|done].
  destruct (users w !! u) as [usr|] eqn:Eu; [|done]. simpl.
  apply check_achievements_inv. unfold ach_inv. simpl.
  apply map_Forall_insert_2; [|done]. simpl. by apply (Hinv u).
Qed.

Lemma advance_inv w u qd now : ach_inv w → ach_inv (advance w u qd now).1.
Proof.
  intros Hinv. unfold advance. destruct (_ <=? _)%Z; [|done].
  match goal with |- context [complete_quiz ?w1 u now] =>
    pose proof (complete_quiz_inv w1 u now Hinv) as H;
    destruct (complete_quiz w1 u now) as [w' r] end.
  by destruct r.
Qed.

Lemma show_question_inv w u now : ach_inv w → ach_inv (show_question w u now).1.
Proof.
  intros Hinv. unfold show_question.
  destruct (get_current_question w u) as [[cur|]|]; try done.
  pose proof (complete_quiz_inv w u now Hinv) as H.
  destruct (complete_quiz w u now) as [w' r]. by destruct r.
Qed.

Lemma after_submit_inv r u now : ach_inv r.1 → ach_inv (after_submit r u now).1.
Proof.
  destruct r as [w1 o]. simpl. intros Hinv.
  destruct o as [| | |[] [res|]]; simpl; try done; by apply show_question_inv.
Qed.

Lemma submit_answer_inv w u q a now :
  ach_inv w → ach_inv (submit_answer w u q a now).1.
Proof.
  intros Hinv. unfold submit_answer.
  destruct (active_quizzes w !! u) as [qd|]; [|done].
  destruct (_ <=? _)%Z; [done|]. destruct (py_item _ _); [|done].
  by apply advance_inv.
Qed.

Lemma skip_question_inv w u now : ach_inv w → ach_inv (skip_question w u now).1.
Proof.
  intros Hinv. unfold skip_question.
  destruct (active_quizzes w !! u) as [qd|]; [|done].
  destruct (_ <=? _)%Z; [done|]. by apply advance_inv.
Qed.

Lemma set_answer_inv w u q v : ach_inv w → ach_inv (set_answer w u q v).
Proof. unfold set_answer. by destruct (active_quizzes w !! u). Qed.

Lemma handle_test_button_inv w u data now rnd :
  ach_inv w → ach_inv (handle_test_button w u data now rnd).1.
Proof.
  intros Hinv. destruct data as [topic|q i|q i|q|q|]; simpl.
  - assert (H : ach_inv (start_quiz w u topic default_question_count now rnd).1).
    { unfold start_quiz. destruct (_.*2); [done|]. by destruct (_ <? _)%Z. }
    destruct (start_quiz w u topic default_question_count now rnd) as [w1 [| |qd]];
      try done. by apply show_question_inv.
  - destruct (get_current_question w u) as [[cur|]|]; try done.
    repeat case_decide; try done.
    + by apply after_submit_inv, submit_answer_inv.
    + destruct (toggle _ _); [|done]. by apply show_question_inv, set_answer_inv.
  - destruct (get_current_question w u) as [[cur|]|]; try done.
    case_decide; [|done]. destruct (append_choice _ _); [|done].
    by apply show_question_inv, set_answer_inv.
  - destruct (get_current_question w u) as [[cur|]|]; try done.
    case_decide; [|done]. by apply show_question_inv, set_answer_inv.
  - destruct (get_current_question w u) as [[cur|]|]; try done.
    case_decide; [|done]. by apply after_submit_inv, submit_answer_inv.
  - by apply after_submit_inv, skip_question_inv.
Qed.

Lemma run_inv ps : ∀ w, ach_inv w → ach_inv (run w ps).
Proof.
  induction ps as [|[[[u d] now] rnd] ps IH]; intros w H; [done|].
  apply IH. by apply handle_test_button_inv.
Qed.

(** C8: a rule whose name is among the achievements already granted to the
    user does not fire, whatever its condition: [check_achievements] appends
    to the user's achievements exactly its [new_achievements], whose names
    are pairwise different and none of which was granted before. So when no
    user holds a name twice, none does after [check_achievements], after
    [complete_quiz], after a button press, or after any run of presses. *)
Theorem achievement_granted_once (w : world) (u : Z) (cc tq : nat) (pct : Q)
    (usr : user) :
  users w !! u = Some usr →
  let new_achievements := (check_achievements w u cc tq pct).2 in
  users (check_achievements w u cc tq pct).1 !! u
  = Some {| results := results usr;
            achievements := achievements usr ++ new_achievements |}
  ∧ NoDup (name <$> new_achievements)
  ∧ (∀ a, a ∈ new_achievements → name a ∉ name <$> achievements usr)
  ∧ (ach_inv w →
     ach_inv (check_achievements w u cc tq pct).1
     ∧ (∀ now, ach_inv (complete_quiz w u now).1)
     ∧ (∀ u' data now rnd, ach_inv (handle_test_button w u' data now rnd).1)
     ∧ (∀ ps, ach_inv (run w ps))).
Proof.
  intros Eu.
  destruct (check_achievements_new w u cc tq pct usr Eu) as (E & Hnd & Hnew & _).
  split_and!; try done.
  - rewrite E. apply lookup_insert_eq.
  - intros Hinv. split_and!.
    + by apply check_achievements_inv.
    + intros now. by apply complete_quiz_inv.
    + intros u' data now rnd. by apply handle_test_button_inv.
    + intros ps. by apply run_inv.
Qed.

Lemma achievement_granted_once_witness :
  granted (run (demo [q_single]) (presses [QuizStart 1; QuizAnswer 1 0])) 42
  = ["Первый тест"]
  ∧ ∀ a, a ∈ (check_achievements
                (run (demo [q_single]) (presses [QuizStart 1; QuizAnswer 1 0]))
                42 1 1 100).2 →
         name a ∉ ["Первый тест"].
Proof.
  split; [vm_compute; reflexivity|].
  eapply (achievement_granted_once
            (run (demo [q_single]) (presses [QuizStart 1; QuizAnswer 1 0]))
            42 1 1 100 _ ltac:(vm_compute; reflexivity)).
Defined.

(** Two quizzes completed in a row, the second with a perfect score: the
    always-true rule has fired once. *)
Example first_test_granted_once :
  granted (run (demo [q_single])
               (presses [QuizStart 1; QuizAnswer 1 0; QuizStart 1; QuizAnswer 1 2]))
          42
  = ["Первый тест"; "Отличник"].
Proof. by vm_compute. Qed.

(** *** Toggling *)

Lemma ints_snoc_int l i : ints (l ++ [AInt i]) = ints l ++ [i].
Proof. unfold ints. by rewrite omap_app. Qed.

Lemma ints_snoc_str l s : ints (l ++ [AStr s]) = ints l.
Proof. unfold ints. rewrite omap_app. simpl. apply app_nil_r. Qed.

Lemma elem_of_ints l i : i ∈ ints l ↔ AInt i ∈ l.
Proof.
  unfold ints. rewrite list_elem_of_omap. split.
  - intros ([n|s] & Hin & [= <-]). done.
  - intros H. by exists (AInt i).
Qed.

Lemma list_remove_other x y l : y ≠ x → y ∈ list_remove x l ↔ y ∈ l.
Proof.
  intros Hne. induction l as [|z l IH]; [done|]. simpl.
  case_decide as Hz.
  - subst z. rewrite elem_of_cons. split; [by right|by intros [?|?]].
  - by rewrite !elem_of_cons, IH.
Qed.

Lemma ints_list_remove_sublist x l : ints (list_remove x l) `sublist_of` ints l.
Proof.
  induction l as [|z l IH]; [done|]. simpl. case_decide as Hz.
  - unfold ints. simpl. destruct (as_int z); [by apply sublist_cons|done].
  - unfold ints in *. simpl. destruct (as_int z); [by apply sublist_skip|done].
Qed.

Lemma list_remove_gone i l :
  NoDup (ints l) → AInt i ∉ list_remove (AInt i) l.
Proof.
  induction l as [|z l IH]; intros Hnd; [by apply not_elem_of_nil|]. simpl.
  case_decide as Hz.
  - subst z. unfold ints in Hnd. simpl in Hnd.
    apply NoDup_cons in Hnd as [Hni _]. by rewrite <- elem_of_ints.
  - rewrite elem_of_cons. intros [Heq|Hin]; [done|].
    revert Hin. apply IH. unfold ints in *. simpl in Hnd.
    destruct (as_int z); [by apply NoDup_cons in Hnd as [_ ?]|done].
Qed.

Lemma toggle_ok i v v' :
  entry_ok (Some v) → toggle i v = Ok v' → entry_ok (Some v').
Proof.
  destruct v as [n|l]; [done|]. simpl. intros Hnd.
  case_bool_decide as Hin; intros [= <-]; simpl.
  - eapply sublist_NoDup; [done|apply ints_list_remove_sublist].
  - rewrite ints_snoc_int. apply NoDup_app. split_and!; [done| |apply NoDup_singleton].
    intros n Hn ->%list_elem_of_singleton. by apply Hin, elem_of_ints.
Qed.

Lemma edits_ok v v' : entry_ok (Some v) → edits v v' → entry_ok (Some v').
Proof.
  intros Hv [i v1 H|i v1 H|].
  - by eapply toggle_ok.
  - destruct v as [n|l]; [done|]. injection H as <-. simpl.
    by rewrite ints_snoc_str.
  - simpl. apply NoDup_nil_2.
Qed.

(** *** Well-formed sessions *)

Lemma sample_submseteq {A} (k : nat) : ∀ (pool : list A) rnd,
  sample pool k rnd ⊆+ pool.
Proof.
  induction k as [|k IH]; intros pool rnd; simpl; [apply submseteq_nil_l|].
  destruct (pool !! _) as [x|] eqn:E; [|apply submseteq_nil_l].
  etrans; [apply submseteq_skip, IH|].
  apply Permutation_submseteq. symmetry. by apply delete_Permutation.
Qed.

Lemma submseteq_NoDup {A} (l1 l2 : list A) : l1 ⊆+ l2 → NoDup l2 → NoDup l1.
Proof.
  intros [k Hk]%submseteq_Permutation Hnd. rewrite Hk in Hnd.
  by apply NoDup_app in Hnd as [? _].
Qed.

Lemma fresh_wf table topic k now rnd :
  table_wf table → session_wf (fresh table topic k now rnd).
Proof.
  intros Ht. unfold session_wf, fresh. simpl. split_and!; [|done|done].
  eapply submseteq_NoDup; [|exact Ht].
  apply fmap_submseteq. etrans; [apply sample_submseteq|].
  apply sublist_submseteq, fmap_sublist, sublist_filter.
Qed.

Lemma is_current_lookup qd cur :
  0 <= current_question qd → is_current qd cur →
  questions qd !! Z.to_nat (current_question qd) = Some cur.
Proof.
  intros H0 [_ Hi]. unfold py_item in Hi.
  by rewrite (proj2 (Z.leb_le _ _)) in Hi by done.
Qed.

Lemma session_wf_ids qd k k' q q' :
  session_wf qd → questions qd !! k = Some q → questions qd !! k' = Some q' →
  str (id q) = str (id q') → k = k'.
Proof.
  intros (Hnd & _) Hk Hk' Hs. apply str_inj in Hs.
  eapply NoDup_lookup; [exact Hnd| |].
  - rewrite list_lookup_fmap, Hk. done.
  - rewrite list_lookup_fmap, Hk'. simpl. by rewrite Hs.
Qed.

Lemma session_wf_next table old qd :
  table_wf table → (∀ qd0, old = Some qd0 → session_wf qd0) →
  session_next table old qd → session_wf qd.
Proof.
  intros Ht Hold Hn.
  destruct Hn as [topic k now rnd|qd cur v E Hc He|qd cur v E Hc|qd E Hc].
  - by apply fresh_wf.
  - specialize (Hold _ E). destruct Hold as (Hnd & H0 & Hent).
    pose proof (is_current_lookup qd cur H0 Hc) as Hcur.
    split_and!; [done..|]. intros k q Hk Hq. unfold record. simpl.
    destruct (decide (str (id cur) = str (id q))) as [Heq|Hne].
    + rewrite Heq, lookup_insert_eq. eapply edits_ok; [|exact He].
      specialize (Hent _ _ (Nat.le_refl _) Hcur). unfold entry.
      destruct (answers qd !! str (id cur)) as [v0|]; [done|].
      simpl. apply NoDup_nil_2.
    + rewrite lookup_insert_ne by done. by apply (Hent k).
  - specialize (Hold _ E). pose proof Hold as (Hnd & H0 & Hent).
    pose proof (is_current_lookup qd cur H0 Hc) as Hcur.
    assert (Hadv : ∀ k q,
      (Z.to_nat (current_question qd + 1) ≤ k)%nat →
      questions qd !! k = Some q →
      entry_ok (<[str (id cur) := v]> (answers qd) !! str (id q))).
    { intros k q Hk Hq.
      destruct (decide (str (id cur) = str (id q))) as [Heq|Hne].
      - pose proof (session_wf_ids qd _ _ _ _ Hold Hcur Hq Heq) as Hkk.
        exfalso. lia.
      - rewrite lookup_insert_ne by done. apply (Hent k); [lia|done]. }
    unfold advanced, record, session_wf. simpl.
    destruct (_ <=? _)%Z; simpl; (split_and!; [done|lia|exact Hadv]).
  - specialize (Hold _ E). destruct Hold as (Hnd & H0 & Hent).
    assert (Hadv : ∀ k q,
      (Z.to_nat (current_question qd + 1) ≤ k)%nat →
      questions qd !! k = Some q → entry_ok (answers qd !! str (id q))).
    { intros k q Hk Hq. apply (Hent k); [lia|done]. }
    unfold advanced, session_wf. simpl.
    destruct (_ <=? _)%Z; simpl; (split_and!; [done|lia|exact Hadv]).
Qed.

(** Starting from a store without sessions over a table keyed by [id], every
    session a run of presses leaves is well formed. *)
Lemma run_wf w ps :
  table_wf (question_table w) → active_quizzes w = ∅ →
  sessions_ok table_wf session_wf (run w ps).
Proof.
  intros Ht He. apply run_ok; [apply session_wf_next|].
  split; [done|]. rewrite He. apply map_Forall_empty.
Qed.

Lemma list_remove_snoc x l : x ∉ l → list_remove x (l ++ [x]) = l.
Proof.
  induction l as [|z l IH]; intros Hni; simpl.
  - by rewrite decide_True.
  - apply not_elem_of_cons in Hni as [Hne Hni].
    rewrite decide_False by done. by rewrite IH.
Qed.

(** Two toggles of the same index on a list without a repeated int. *)
Lemma toggle_twice_list i l :
  NoDup (ints l) →
  ∃ l1 l2,
    toggle i (VList l) = Ok (VList l1)
    ∧ toggle i (VList l1) = Ok (VList l2)
    ∧ (AInt i ∈ l1 ↔ AInt i ∉ l)
    ∧ (∀ x, x ≠ AInt i → x ∈ l1 ↔ x ∈ l)
    ∧ list_to_set l2 =@{gset atom} list_to_set l.
Proof.
  intros Hnd. simpl. case_bool_decide as Hin.
  - pose proof (list_remove_gone i l Hnd) as Hgone.
    exists (list_remove (AInt i) l), (list_remove (AInt i) l ++ [AInt i]).
    rewrite bool_decide_eq_false_2 by done.
    split_and!; [done|done|tauto|by intros; apply list_remove_other|].
    apply set_eq_members. intros x. rewrite elem_of_app, list_elem_of_singleton.
    destruct (decide (x = AInt i)) as [->|Hne]; [tauto|].
    rewrite list_remove_other by done. tauto.
  - exists (l ++ [AInt i]), l.
    assert (Hin' : AInt i ∈ l ++ [AInt i]).
    { apply elem_of_app. right. by apply list_elem_of_singleton. }
    rewrite bool_decide_eq_true_2 by done. rewrite list_remove_snoc by done.
    split_and!; [done|done|tauto| |done].
    intros x Hne. rewrite elem_of_app, list_elem_of_singleton. tauto.
Qed.

Lemma handle_toggle_press w u cur i now rnd v1 :
  get_current_question w u = Ok (Some cur) →
  question_type cur = "multiple" →
  toggle i (get_answer w u (id cur)) = Ok v1 →
  get_current_question
    (handle_test_button w u (QuizAnswer (id cur) i) now rnd).1 u
  = Ok (Some cur)
  ∧ get_answer (handle_test_button w u (QuizAnswer (id cur) i) now rnd).1
               u (id cur) = v1.
Proof.
  intros Hc Ht Hv.
  destruct (get_answer w u (id cur)) as [n|l] eqn:Ha; [done|].
  rewrite (handle_toggle_current w u now rnd cur i l Hc Ht Ha).
  simpl in Hv. simpl. split.
  - by rewrite get_current_question_set_answer.
  - destruct (current_question_is_current _ _ _ Hc) as (qd & E & _).
    rewrite get_answer_set_answer by by eexists.
    by destruct (bool_decide _); injection Hv as <-.
Qed.

Lemma is_option_selected_answer w u q i :
  is_option_selected w u q i = py_in (AInt i) (get_answer w u q).
Proof.
  unfold is_option_selected, get_answer.
  by destruct (active_quizzes w !! u).
Qed.

(** In a well-formed store the selection of the current question is a list
    without a repeated int. *)
Lemma current_selection_wf w u cur :
  sessions_ok table_wf session_wf w →
  get_current_question w u = Ok (Some cur) →
  ∃ l, get_answer w u (id cur) = VList l ∧ NoDup (ints l).
Proof.
  intros [_ Hs] Hc.
  destruct (current_question_is_current _ _ _ Hc) as (qd & E & Hcur).
  destruct (Hs u qd E) as (Hnd & H0 & Hent).
  specialize (Hent _ _ (Nat.le_refl _) (is_current_lookup qd cur H0 Hcur)).
  rewrite (get_answer_entry w u qd cur E). unfold entry.
  destruct (answers qd !! str (id cur)) as [[n|l]|]; [done| |].
  - by exists l.
  - exists []. split; [done|apply NoDup_nil_2].
Qed.

(** C10: in any store reached by button presses from a store without
    sessions (the questions table keyed by [id]), when the current question
    of user [u] is of type multiple, one toggle of index [i] leaves [i]
    selected exactly when it was not, and changes the selection of no other
    item; [is_option_selected] flips accordingly; and after a second toggle
    of [i] the set of selected items is the one before the two toggles. *)
Theorem toggle_twice_restores_selection (w0 : world) (ps : list press) (u : Z)
    (cur : question) (i : Z) (now now' : Z) (rnd rnd' : list nat) :
  table_wf (question_table w0) → active_quizzes w0 = ∅ →
  get_current_question (run w0 ps) u = Ok (Some cur) →
  question_type cur = "multiple" →
  let w := run w0 ps in
  let w1 := (handle_test_button w u (QuizAnswer (id cur) i) now rnd).1 in
  let w2 := (handle_test_button w1 u (QuizAnswer (id cur) i) now' rnd').1 in
  ∃ l l1 l2,
    get_answer w u (id cur) = VList l
    ∧ get_answer w1 u (id cur) = VList l1
    ∧ get_answer w2 u (id cur) = VList l2
    ∧ (AInt i ∈ l1 ↔ AInt i ∉ l)
    ∧ (∀ x, x ≠ AInt i → x ∈ l1 ↔ x ∈ l)
    ∧ is_option_selected w u (id cur) i = Ok (bool_decide (AInt i ∈ l))
    ∧ is_option_selected w1 u (id cur) i = Ok (negb (bool_decide (AInt i ∈ l)))
    ∧ list_to_set l2 =@{gset atom} list_to_set l
    ∧ is_option_selected w2 u (id cur) i = is_option_selected w u (id cur) i.
Proof.
  intros Ht He Hc Hty w w1 w2.
  destruct (current_selection_wf w u cur (run_wf w0 ps Ht He) Hc)
    as (l & Ha & Hnd).
  destruct (toggle_twice_list i l Hnd) as (l1 & l2 & T1 & T2 & Hi & Ho & Hset).
  rewrite <- Ha in T1.
  destruct (handle_toggle_press w u cur i now rnd _ Hc Hty T1) as [Hc1 Ha1].
  fold w1 in Hc1, Ha1. rewrite <- Ha1 in T2.
  destruct (handle_toggle_press w1 u cur i now' rnd' _ Hc1 Hty T2) as [_ Ha2].
  fold w2 in Ha2.
  exists l, l1, l2. rewrite !is_option_selected_answer, Ha, Ha1, Ha2. simpl.
  split_and!; try done.
  - f_equal. destruct (decide (AInt i ∈ l)) as [Hl|Hl].
    + rewrite (bool_decide_eq_true_2 _ Hl). apply bool_decide_eq_false_2. tauto.
    + rewrite (bool_decide_eq_false_2 _ Hl). apply bool_decide_eq_true_2. tauto.
  - f_equal. apply bool_decide_ext. by rewrite <- !(elem_of_list_to_set (C:=gset atom)), Hset.
Qed.

Lemma toggle_twice_restores_selection_witness :
  table_wf (question_table (demo [q_multiple]))
  ∧ get_current_question
      (run (demo [q_multiple]) (presses [QuizStart 1; QuizAnswer 2 0])) 42
    = Ok (Some q_multiple)
  ∧ ∃ l l2,
      get_answer
        (run (demo [q_multiple]) (presses [QuizStart 1; QuizAnswer 2 0])) 42 2
      = VList l
      ∧ get_answer
          (handle_test_button
             (handle_test_button
                (run (demo [q_multiple]) (presses [QuizStart 1; QuizAnswer 2 0]))
                42 (QuizAnswer 2 2) 0 []).1
             42 (QuizAnswer 2 2) 0 []).1 42 2
        = VList l2
      ∧ list_to_set l2 =@{gset atom} list_to_set l.
Proof.
  assert (Ht : table_wf (question_table (demo [q_multiple]))).
  { apply (bool_decide_unpack _). vm_compute. exact I. }
  assert (Hc : get_current_question
                 (run (demo [q_multiple]) (presses [QuizStart 1; QuizAnswer 2 0]))
                 42 = Ok (Some q_multiple)) by (vm_compute; reflexivity).
  split; [exact Ht|]. split; [exact Hc|].
  destruct (toggle_twice_restores_selection
              (demo [q_multiple]) (presses [QuizStart 1; QuizAnswer 2 0])
              42 q_multiple 2 0 0 [] [] Ht eq_refl Hc eq_refl)
    as (l & l1 & l2 & Ha & _ & Ha2 & _ & _ & _ & _ & Hset & _).
  exists l, l2. split; [exact Ha|]. split; [exact Ha2|exact Hset].
Defined.

(** Toggling 0 twice on the selection [0, 2]: the list comes back in another
    order, the set is the same. *)
Example toggle_twice_reorders :
  toggle 0 (VList [AInt 0; AInt 2]) = Ok (VList [AInt 2])
  ∧ toggle 0 (VList [AInt 2]) = Ok (VList [AInt 2; AInt 0]).
Proof. split; reflexivity. Qed.

(** On a list holding an int twice, which no run of presses builds, one
    toggle would leave the int selected. *)
Remark toggle_on_repeated_int :
  toggle 0 (VList [AInt 0; AInt 0]) = Ok (VList [AInt 0]).
Proof. reflexivity. Qed.

(** ** Further properties of the engine *)

(** *** Starting a quiz *)

Lemma sample_length {A} (k : nat) : ∀ (pool : list A) rnd,
  length (sample pool k rnd) = (k `min` length pool)%nat.
Proof.
  induction k as [|k IH]; intros pool rnd; [done|]. simpl.
  destruct pool as [|x0 pool0] eqn:Ep; [done|]. rewrite <- Ep.
  assert (Hlt : (hd 0 rnd `mod` length pool < length pool)%nat).
  { apply Nat.mod_upper_bound. by rewrite Ep. }
  destruct (lookup_lt_is_Some_2 pool _ Hlt) as [x Ex]. rewrite Ex. simpl.
  rewrite IH, length_delete by by eexists.
  rewrite Ep in *. simpl in *. lia.
Qed.

(** X1: What [start_quiz] draws: [min(question_count, available)] questions of
    the topic, no table row twice, hence no question id twice when [id] is a
    key of the table; the session starts at index 0 without answers. *)
Theorem start_quiz_draws (w : world) (u topic k now : Z) (rnd : list nat)
    (qd : quiz_data) :
  (start_quiz w u topic k now rnd).2 = StartOk qd →
  len (questions qd) = Z.min k (len (topic_questions w topic))
  ∧ questions qd ⊆+ topic_questions w topic
  ∧ (table_wf (question_table w) → NoDup (id <$> questions qd))
  ∧ topic_id qd = topic ∧ current_question qd = 0 ∧ answers qd = ∅
  ∧ start_time qd = now ∧ is_completed qd = false.
Proof.
  intros H. unfold start_quiz in H. fold (topic_questions w topic) in H.
  destruct (topic_questions w topic) as [|q qs] eqn:E; [done|].
  rewrite <- E in *.
  destruct (Z.ltb_spec (Z.min k (len (topic_questions w topic))) 0) as [|Hk];
    [done|].
  simpl in H. injection H as <-. simpl. split_and!; try done.
  - unfold len in *. rewrite sample_length. lia.
  - apply sample_submseteq.
  - intros Ht. eapply submseteq_NoDup; [|exact Ht].
    apply fmap_submseteq. etrans; [apply sample_submseteq|].
    apply sublist_submseteq, fmap_sublist, sublist_filter.
Qed.

Lemma start_quiz_draws_witness :
  (start_quiz (demo [q_single; q_multiple; q_sequence]) 42 1 2 0 [5; 7]%nat).2
  = StartOk (fresh (question_table (demo [q_single; q_multiple; q_sequence]))
                   1 2 0 [5; 7]%nat)
  ∧ len (questions
           (fresh (question_table (demo [q_single; q_multiple; q_sequence]))
                  1 2 0 [5; 7]%nat)) = 2.
Proof.
  assert (H : (start_quiz (demo [q_single; q_multiple; q_sequence])
                          42 1 2 0 [5; 7]%nat).2
              = StartOk (fresh (question_table
                                  (demo [q_single; q_multiple; q_sequence]))
                               1 2 0 [5; 7]%nat)) by (vm_compute; reflexivity).
  split; [exact H|].
  apply (start_quiz_draws _ _ _ _ _ _ _ H).
Defined.

Lemma get_current_question_lookup w u qd q :
  active_quizzes w !! u = Some qd → 0 <= current_question qd →
  questions qd !! Z.to_nat (current_question qd) = Some q →
  get_current_question w u = Ok (Some q).
Proof.
  intros E H0 Hq. unfold get_current_question. rewrite E.
  pose proof (lookup_lt_Some _ _ _ Hq) as Hlt.
  rewrite (proj2 (Z.leb_gt _ _)) by (unfold len; lia).
  unfold py_item. rewrite (proj2 (Z.leb_le _ _)) by done. by rewrite Hq.
Qed.

Lemma start_quiz_nonempty w u topic k now rnd :
  topic_questions w topic ≠ [] → 0 <= k →
  start_quiz w u topic k now rnd
  = (set_quizzes w (<[u := fresh (question_table w) topic k now rnd]>
                      (active_quizzes w)),
     StartOk (fresh (question_table w) topic k now rnd)).
Proof.
  intros Hne Hk. unfold start_quiz, fresh. fold (topic_questions w topic).
  destruct (topic_questions w topic) as [|q0 qs] eqn:E; [done|].
  rewrite (proj2 (Z.ltb_ge _ _)); [done|]. unfold len. lia.
Qed.

(** X2: The start button. On a topic with questions the user's session, if any,
    is replaced by the new one (its progress and answers are gone) and the
    first drawn question is shown; the sessions of other users stay. On a
    topic without questions nothing changes, a session in progress
    included. *)
Theorem start_button_restarts (w : world) (u topic now : Z) (rnd : list nat) :
  (topic_questions w topic ≠ [] →
   ∃ q, handle_test_button w u (QuizStart topic) now rnd
        = (set_quizzes w
             (<[u := fresh (question_table w) topic default_question_count
                           now rnd]> (active_quizzes w)),
           Question q)
        ∧ questions (fresh (question_table w) topic default_question_count
                           now rnd) !! 0%nat = Some q
        ∧ q ∈ topic_questions w topic)
  ∧ (topic_questions w topic = [] →
     handle_test_button w u (QuizStart topic) now rnd = (w, Message)).
Proof.
  split.
  - intros Hne.
    set (qd := fresh (question_table w) topic default_question_count now rnd).
    assert (Hq : (0 < length (questions qd))%nat).
    { unfold qd, fresh. simpl. fold (topic_questions w topic).
      rewrite sample_length. unfold len, default_question_count.
      destruct (topic_questions w topic); [done|]. simpl. lia. }
    destruct (lookup_lt_is_Some_2 (questions qd) 0 Hq) as [q Eq].
    exists q. split_and!.
    + simpl. rewrite start_quiz_nonempty by done. fold qd.
      apply show_question_current.
      apply (get_current_question_lookup _ u qd q); [|done|exact Eq].
      simpl. apply lookup_insert_eq.
    + exact Eq.
    + eapply elem_of_submseteq; [|apply sample_submseteq].
      eapply list_elem_of_lookup_2. exact Eq.
  - intros He. simpl. unfold start_quiz. fold (topic_questions w topic).
    by rewrite He.
Qed.

Lemma start_button_restarts_witness :
  topic_questions (run (demo [q_single; q_multiple]) (presses [QuizStart 1; QuizSkip]))
                  1 ≠ []
  ∧ ∃ q, (handle_test_button
            (run (demo [q_single; q_multiple]) (presses [QuizStart 1; QuizSkip]))
            42 (QuizStart 1) 0 []).2 = Question q.
Proof.
  assert (H : topic_questions
                (run (demo [q_single; q_multiple]) (presses [QuizStart 1; QuizSkip]))
                1 ≠ []) by (vm_compute; discriminate).
  split; [exact H|].
  destruct (proj1 (start_button_restarts
                     (run (demo [q_single; q_multiple])
                          (presses [QuizStart 1; QuizSkip])) 42 1 0 []) H)
    as (q & Hq & _).
  exists q. by rewrite Hq.
Defined.

(** *** One user's presses leave the others alone *)




Lemma store_step_elsewhere w w' u u' :
  store_step w w' u → u' ≠ u →
  active_quizzes w' !! u' = active_quizzes w !! u'.
Proof.
  intros [_ [->|[->|(qd & _ & ->)]]] Hne; [done| |].
  - by rewrite lookup_delete_ne.
  - by rewrite lookup_insert_ne.
Qed.











(** *** What a completed quiz leaves behind *)

Lemma first_test_is_held w u cc tq pct usr usr' :
  users w !! u = Some usr →
  users (check_achievements w u cc tq pct).1 !! u = Some usr' →
  results usr' = results usr
  ∧ "Первый тест" ∈ name <$> achievements usr'.
Proof.
  intros Eu. unfold check_achievements. rewrite Eu. simpl.
  rewrite lookup_insert_eq. intros [= <-]. simpl. split; [done|].
  rewrite fmap_app, elem_of_app.
  destruct (decide ("Первый тест" ∈ name <$> achievements usr)) as [Hin|Hni];
    [by left|right].
  unfold achievements_to_check. rewrite filter_cons. simpl.
  rewrite decide_True; [apply list_elem_of_here|].
  split; [|done]. by rewrite elem_of_list_to_set.
Qed.

(** X4: A quiz that completes successfully appends one row to the user's
    results: the topic of the session, [score = correct_count],
    [max_score = len(questions)] and the percentage of the payload, the
    float [round((correct_count / total_questions) * 100, 1)]; there is
    one question result per question, in the order of the questions, marked
    as the scoring of the recorded answer says; [correct_count] is the number
    of results marked correct, so never more than [len(questions)]; and the
    user holds the first-test achievement afterwards. *)
Theorem completion_is_recorded (w w' : world) (u now : Z) (cc tq : nat)
    (pct : Q) (rs : list question_result) :
  complete_quiz w u now = (w', CompleteOk cc tq pct rs) →
  ∃ qd usr usr',
    active_quizzes w !! u = Some qd ∧ users w !! u = Some usr
    ∧ users w' !! u = Some usr'
    ∧ results usr'
      = results usr ++
        [{| tr_topic_id := topic_id qd; tr_score := cc; tr_max_score := tq;
            tr_percentage := pct;
            tr_time_spent := (now - start_time qd) `mod` 86400 |}]
    ∧ tq = length (questions qd) ∧ pct = percentage_of cc tq
    ∧ length rs = tq
    ∧ cc = length (filter (λ r, qr_is_correct r = true) rs)
    ∧ (cc ≤ tq)%nat
    ∧ "Первый тест" ∈ name <$> achievements usr'
    ∧ ∀ k q, questions qd !! k = Some q →
        ∃ r, rs !! k = Some r
             ∧ is_correct q (answers qd !! str (id q)) = Ok (qr_is_correct r)
             ∧ qr_user_answer r = answers qd !! str (id q).
Proof.
  unfold complete_quiz.
  destruct (active_quizzes w !! u) as [qd|] eqn:E; [|done].
  destruct (score_questions _ _) as [[cc0 rs0]|e] eqn:Es; [|done].
  destruct (users w !! u) as [usr|] eqn:Eu; [|done].
  intros [= <- <- <- <- <-].
  destruct (score_questions_spec _ _ _ _ Es) as (Hl & Hn & Hk).
  match goal with |- context [check_achievements ?w1 u ?a ?b ?c] =>
    assert (E1 : users w1 !! u = Some
      {| results := results usr ++
           [{| tr_topic_id := topic_id qd; tr_score := cc0;
               tr_max_score := length (questions qd);
               tr_percentage := percentage_of cc0 (length (questions qd));
               tr_time_spent := (now - start_time qd) `mod` 86400 |}];
         achievements := achievements usr |}) by apply lookup_insert_eq;
    destruct (check_achievements_new w1 u a b c _ E1) as (E2 & _);
    pose proof (fun usr' => first_test_is_held w1 u a b c _ usr' E1) as Hf
  end.
  eexists qd, usr, _. simpl. rewrite E2. rewrite lookup_insert_eq.
  split_and!; try done.
  - rewrite Hn, <- Hl. apply length_filter.
  - eapply Hf. rewrite E2. apply lookup_insert_eq.
  - intros k q Hq. destruct (Hk k q Hq) as (r & Hr & Hc & Hu & _). eauto.
Qed.

Lemma completion_is_recorded_witness :
  ∃ w', complete_quiz (run (demo [q_single]) (presses [QuizStart 1])) 42 5
        = (w', CompleteOk 0 1 (percentage_of 0 1) (blank_results [q_single]))
        ∧ (λ usr, length (results usr)) <$> users w' !! 42 = Some 1%nat.
Proof.
  eexists. split; [vm_compute; reflexivity|].
  destruct (completion_is_recorded
              (run (demo [q_single]) (presses [QuizStart 1])) _ 42 5 0 1
              (percentage_of 0 1) (blank_results [q_single])
              ltac:(vm_compute; reflexivity))
    as (qd & usr & usr' & _ & Eu & Eu' & Hres & _).
  rewrite Eu'. simpl. rewrite Hres, length_app. f_equal.
  assert (usr = {| results := []; achievements := [] |}) as ->
    by (vm_compute in Eu; congruence).
  reflexivity.
Defined.

(** *** A user without a users row *)




(** *** Answering a single-choice question *)



(** *** Resetting a sequence *)

Lemma get_answer_set_answer_ne w u q q' v :
  q ≠ q' → get_answer (set_answer w u q v) u q' = get_answer w u q'.
Proof.
  intros Hne. unfold get_answer, set_answer.
  destruct (active_quizzes w !! u) as [qd|] eqn:E; [|by rewrite E].
  simpl. rewrite lookup_insert_eq. simpl.
  rewrite lookup_insert_ne; [done|]. intros H. by apply str_inj in H.
Qed.

Lemma set_answer_twice w u q v v' :
  set_answer (set_answer w u q v) u q v' = set_answer w u q v'.
Proof.
  unfold set_answer.
  destruct (active_quizzes w !! u) as [qd|] eqn:E; [|by rewrite E].
  simpl. rewrite lookup_insert_eq. unfold set_quizzes, set_answers. simpl.
  by rewrite !insert_insert_eq.
Qed.

(** X7: The reset button of the current question empties its entry, whatever was
    accumulated, and shows the question again; the entries of the other
    questions and the index stay; a second reset changes nothing more; and
    picks pressed after a reset accumulate from the empty list. *)
Theorem reset_clears_the_entry (w : world) (u : Z) (cur : question)
    (now : Z) (rnd : list nat) :
  get_current_question w u = Ok (Some cur) →
  handle_test_button w u (QuizReset (id cur)) now rnd
  = (set_answer w u (id cur) (VList []), Question cur)
  ∧ get_answer (set_answer w u (id cur) (VList [])) u (id cur) = VList []
  ∧ (∀ q, q ≠ id cur →
       get_answer (set_answer w u (id cur) (VList [])) u q = get_answer w u q)
  ∧ get_current_question (set_answer w u (id cur) (VList [])) u
    = Ok (Some cur)
  ∧ (∀ now' rnd',
       handle_test_button (set_answer w u (id cur) (VList [])) u
                          (QuizReset (id cur)) now' rnd'
       = (set_answer w u (id cur) (VList []), Question cur))
  ∧ (∀ picks now' rnd',
       get_answer (run (set_answer w u (id cur) (VList []))
                       (seq_presses u (id cur) picks now' rnd')) u (id cur)
       = VList (seq_items picks)).
Proof.
  intros Hc.
  destruct (current_question_is_current _ _ _ Hc) as (qd & E & _).
  assert (Hc' : get_current_question (set_answer w u (id cur) (VList [])) u
                = Ok (Some cur))
    by by rewrite get_current_question_set_answer.
  assert (Ha : get_answer (set_answer w u (id cur) (VList [])) u (id cur)
               = VList []) by (apply get_answer_set_answer; by eexists).
  split_and!.
  - by apply handle_reset_current.
  - exact Ha.
  - intros q Hne. by apply get_answer_set_answer_ne.
  - exact Hc'.
  - intros now' rnd'. rewrite (handle_reset_current _ u now' rnd' cur Hc').
    by rewrite set_answer_twice.
  - intros picks now' rnd'.
    by destruct (run_seq_presses u cur now' rnd' picks _ [] Hc' Ha) as [_ ->].
Qed.

Lemma reset_clears_the_entry_witness :
  get_current_question
    (run (demo [q_sequence]) (presses [QuizStart 1; QuizSeq 3 1; QuizSeq 3 1]))
    42 = Ok (Some q_sequence)
  ∧ get_answer
      (handle_test_button
         (run (demo [q_sequence]) (presses [QuizStart 1; QuizSeq 3 1; QuizSeq 3 1]))
         42 (QuizReset (id q_sequence)) 0 []).1 42 (id q_sequence) = VList [].
Proof.
  assert (H : get_current_question
                (run (demo [q_sequence])
                     (presses [QuizStart 1; QuizSeq 3 1; QuizSeq 3 1])) 42
              = Ok (Some q_sequence)) by (vm_compute; reflexivity).
  split; [exact H|].
  destruct (reset_clears_the_entry _ 42 q_sequence 0 [] H) as (-> & Ha & _).
  exact Ha.
Defined.

(** *** Questions come in the drawn order *)

Lemma skip_question_next w u qd now :
  active_quizzes w !! u = Some qd →
  current_question qd + 1 < len (questions qd) →
  skip_question w u now
  = (set_quizzes w (<[u := set_current qd (current_question qd + 1)]>
                      (active_quizzes w)),
     SubmitOk false None).
Proof.
  intros E Hlt. unfold skip_question. rewrite E.
  rewrite (proj2 (Z.leb_gt _ _)) by lia. unfold advance. simpl.
  by rewrite (proj2 (Z.leb_gt _ _)) by lia.
Qed.

Lemma skips_reach u now k : ∀ w qd q,
  active_quizzes w !! u = Some qd → 0 <= current_question qd →
  questions qd !! (Z.to_nat (current_question qd) + k)%nat = Some q →
  get_current_question (skips w u now k) u = Ok (Some q)
  ∧ ∃ qd', active_quizzes (skips w u now k) !! u = Some qd'
           ∧ current_question qd' = current_question qd + Z.of_nat k
           ∧ questions qd' = questions qd ∧ answers qd' = answers qd.
Proof.
  induction k as [|k IH]; intros w qd q E H0 Hq.
  - simpl. rewrite Nat.add_0_r in Hq. split.
    + by eapply get_current_question_lookup.
    + exists qd. split_and!; [done|lia|done|done].
  - simpl. pose proof (lookup_lt_Some _ _ _ Hq) as Hlt.
    rewrite (skip_question_next w u qd now E) by (unfold len; lia). simpl.
    destruct (IH (set_quizzes w (<[u := set_current qd (current_question qd + 1)]>
                                   (active_quizzes w)))
                 (set_current qd (current_question qd + 1)) q)
      as (Hc & qd' & E' & Hi & Hqs & Ha).
    + simpl. apply lookup_insert_eq.
    + simpl. lia.
    + simpl. replace (Z.to_nat (current_question qd + 1) + k)%nat
        with (Z.to_nat (current_question qd) + S k)%nat by lia. done.
    + split; [done|]. exists qd'. simpl in *. split_and!; [done|lia|done|done].
Qed.

(** X8: Skipping walks through the questions in the order they were drawn:
    [k] skips after the question at index [i] make the question at index
    [i + k] the current one, with the answers map untouched; and the skip
    button answers with that next question. *)
Theorem skipping_follows_the_order (w : world) (u : Z) (qd : quiz_data)
    (q : question) (k : nat) (now : Z) :
  active_quizzes w !! u = Some qd → 0 <= current_question qd →
  questions qd !! (Z.to_nat (current_question qd) + k)%nat = Some q →
  get_current_question (skips w u now k) u = Ok (Some q)
  ∧ (∃ qd', active_quizzes (skips w u now k) !! u = Some qd'
            ∧ current_question qd' = current_question qd + Z.of_nat k
            ∧ questions qd' = questions qd ∧ answers qd' = answers qd)
  ∧ (k = 1%nat → ∀ rnd,
       handle_test_button w u QuizSkip now rnd
       = ((skip_question w u now).1, Question q)).
Proof.
  intros E H0 Hq. destruct (skips_reach u now k w qd q E H0 Hq) as [Hc Hs].
  split_and!; [done|done|]. intros -> rnd. simpl in Hc.
  pose proof (lookup_lt_Some _ _ _ Hq) as Hlt.
  simpl. rewrite (skip_question_next w u qd now E) in * by (unfold len; lia).
  simpl in *. by apply show_question_current.
Qed.

Lemma skipping_follows_the_order_witness :
  get_current_question
    (skips (run (demo [q_single; q_multiple; q_sequence]) (presses [QuizStart 1]))
           42 0 2) 42
  = Ok (Some q_sequence).
Proof.
  eapply (skipping_follows_the_order
            (run (demo [q_single; q_multiple; q_sequence]) (presses [QuizStart 1]))
            42 _ q_sequence 2 0 ltac:(vm_compute; reflexivity)).
  - vm_compute. discriminate.
  - vm_compute. reflexivity.
Defined.

(** *** The completed flag *)

Lemma completed_at_end_next table old qd :
  (∀ qd0, old = Some qd0 → completed_at_end qd0) →
  session_next table old qd → completed_at_end qd.
Proof.
  intros Hold Hn. split.
  { eapply index_in_bounds_next; [|done].
    intros qd0 E0. by destruct (Hold _ E0). }
  destruct Hn as [topic k now rnd|qd cur v E Hc He|qd cur v E Hc|qd E Hc].
  - done.
  - destruct (Hold _ E) as [_ Hf]. simpl. intros Hfl. specialize (Hf Hfl).
    destruct Hc as [Hlt _]. lia.
  - destruct (Hold _ E) as [[H0 H1] Hf]. destruct Hc as [Hlt _].
    unfold advanced, record. simpl.
    destruct (Z.leb_spec (len (questions qd)) (current_question qd + 1));
      simpl; [lia|]. intros Hfl. specialize (Hf Hfl). lia.
  - destruct (Hold _ E) as [[H0 H1] Hf].
    unfold advanced. simpl.
    destruct (Z.leb_spec (len (questions qd)) (current_question qd + 1));
      simpl; [lia|]. intros Hfl. specialize (Hf Hfl). lia.
Qed.

(** X9: [is_completed] is true only on a session whose index equals
    [len(questions)]: this holds of every session after any run of presses
    that starts without sessions, and every single operation keeps it. *)
Theorem completed_only_at_the_end (w : world) :
  map_Forall (λ _ qd, completed_at_end qd) (active_quizzes w) →
  (∀ ps u qd, active_quizzes (run w ps) !! u = Some qd →
     is_completed qd = true → current_question qd = len (questions qd))
  ∧ (∀ w' u, store_step w w' u →
       map_Forall (λ _ qd, completed_at_end qd) (active_quizzes w'))
  ∧ (∀ u q a now, store_step w (submit_answer w u q a now).1 u)
  ∧ (∀ u now, store_step w (skip_question w u now).1 u)
  ∧ (∀ u now, store_step w (complete_quiz w u now).1 u)
  ∧ (∀ u topic k now rnd, store_step w (start_quiz w u topic k now rnd).1 u)
  ∧ (∀ u data now rnd, store_step w (handle_test_button w u data now rnd).1 u).
Proof.
  intros Hinv.
  assert (Hok : sessions_ok (λ _, True) completed_at_end w) by done.
  assert (Hnext : ∀ table old qd, True →
            (∀ qd0, old = Some qd0 → completed_at_end qd0) →
            session_next table old qd → completed_at_end qd).
  { intros table old qd _. apply completed_at_end_next. }
  split_and!.
  - intros ps u qd E.
    destruct (run_ok (λ _, True) completed_at_end Hnext ps w Hok) as [_ Hr].
    by destruct (Hr u qd E).
  - intros w' u Hs.
    by destruct (store_step_ok (λ _, True) completed_at_end Hnext w w' u Hok Hs).
  - intros. apply submit_answer_step.
  - intros. apply skip_question_step.
  - intros. apply complete_quiz_step.
  - intros. apply start_quiz_step.
  - intros. apply handle_test_button_step.
Qed.

Lemma completed_only_at_the_end_witness :
  map_Forall (λ _ qd, completed_at_end qd) (active_quizzes (demo [q_single]))
  ∧ ∀ ps u qd, active_quizzes (run (demo [q_single]) ps) !! u = Some qd →
      is_completed qd = true → current_question qd = len (questions qd).
Proof.
  assert (H : map_Forall (λ _ qd, completed_at_end qd)
                         (active_quizzes (demo [q_single])))
    by apply map_Forall_empty.
  split; [exact H|].
  apply (completed_only_at_the_end _ H).
Defined.

(** *** No operation raises on a store the buttons have built *)

Lemma button_next_session_next table old qd :
  button_next table old qd → session_next table old qd.
Proof.
  intros [topic now rnd|qd0 cur v E Hc He|qd0 cur i E Hc Ht|qd0 cur E Hc|qd0 E Hc].
  - apply next_start.
  - by eapply next_edit.
  - by eapply next_submit.
  - by eapply next_submit.
  - by eapply next_skip.
Qed.

Lemma entry_is_list qd cur :
  session_wf qd → is_current qd cur →
  ∃ l, entry qd cur = VList l ∧ NoDup (ints l).
Proof.
  intros (Hnd & H0 & Hent) Hc.
  specialize (Hent _ _ (Nat.le_refl _) (is_current_lookup qd cur H0 Hc)).
  unfold entry. destruct (answers qd !! str (id cur)) as [[n|l]|]; [done| |].
  - by exists l.
  - exists []. split; [done|apply NoDup_nil_2].
Qed.

Lemma same_id_same_question (qs : list question) q q' :
  NoDup (id <$> qs) → q ∈ qs → q' ∈ qs → id q = id q' → q = q'.
Proof.
  intros Hnd [k Hk]%list_elem_of_lookup [k' Hk']%list_elem_of_lookup Hid.
  assert (k = k') as ->.
  { eapply NoDup_lookup; [exact Hnd| |].
    - by rewrite list_lookup_fmap, Hk.
    - rewrite list_lookup_fmap, Hk'. simpl. by rewrite Hid. }
  congruence.
Qed.

Lemma is_current_elem qd cur :
  0 <= current_question qd → is_current qd cur → cur ∈ questions qd.
Proof.
  intros H0 Hc. eapply list_elem_of_lookup_2. by apply is_current_lookup.
Qed.

(** Writing a list, or writing anything for a question that is not
    multiple-choice, keeps the entries of the multiple-choice questions
    lists. *)
Lemma record_keeps_lists qd cur v :
  session_sound qd → is_current qd cur →
  ((∃ l, v = VList l) ∨ question_type cur ≠ "multiple") →
  ∀ q v', q ∈ questions qd → question_type q = "multiple" →
          <[str (id cur) := v]> (answers qd) !! str (id q) = Some v' →
          ∃ l, v' = VList l.
Proof.
  intros (Hwf & Hle & Hsc & Hl) Hc Hv q v' Hq Ht.
  pose proof Hwf as (Hnd & H0 & _).
  destruct (decide (str (id cur) = str (id q))) as [Heq|Hne].
  - rewrite Heq, lookup_insert_eq. intros [= <-].
    destruct Hv as [Hv|Hv]; [done|]. exfalso. apply Hv.
    apply str_inj in Heq.
    by rewrite (same_id_same_question _ _ _ Hnd (is_current_elem _ _ H0 Hc) Hq Heq).
  - rewrite lookup_insert_ne by done. by apply Hl.
Qed.

Lemma advanced_sound qd :
  session_wf (advanced qd) → current_question qd < len (questions qd) →
  Forall scorable (questions qd) →
  (∀ q v, q ∈ questions qd → question_type q = "multiple" →
          answers qd !! str (id q) = Some v → ∃ l, v = VList l) →
  session_sound (advanced qd).
Proof.
  intros Hwf Hlt Hsc Hl. split; [done|]. unfold advanced in *. simpl in *.
  destruct (_ <=? _)%Z; simpl; (split_and!; [lia|done|done]).
Qed.

Lemma session_sound_next table old qd :
  table_sound table → (∀ qd0, old = Some qd0 → session_sound qd0) →
  button_next table old qd → session_sound qd.
Proof.
  intros [Ht Hts] Hold Hn.
  assert (Hwf : session_wf qd).
  { eapply session_wf_next; [exact Ht| |by apply button_next_session_next].
    intros qd0 E0. by destruct (Hold _ E0). }
  destruct Hn as [topic now rnd|qd cur v E Hc He|qd cur i E Hc Hty|qd cur E Hc
                 |qd E Hc].
  - split; [done|]. simpl. split_and!.
    + unfold len. lia.
    + apply Forall_forall. intros q Hq.
      assert (Hin : q ∈ table.*2).
      { eapply elem_of_submseteq; [exact Hq|].
        etrans; [apply sample_submseteq|].
        apply sublist_submseteq, fmap_sublist, sublist_filter. }
      apply list_elem_of_fmap in Hin as (r & -> & Hr).
      by apply (proj1 (Forall_forall _ _) Hts r).
    + intros q v _ _ Hv. by rewrite lookup_empty in Hv.
  - pose proof (Hold _ E) as Hs. pose proof Hs as (Hwf0 & Hle & Hsc & Hl).
    split; [done|]. simpl. split_and!; [done|done|].
    apply (record_keeps_lists qd cur v Hs Hc). left.
    destruct (entry_is_list qd cur Hwf0 Hc) as (l & El & Hnd).
    assert (Hok : entry_ok (Some v)).
    { eapply edits_ok; [|exact He]. by rewrite El. }
    destruct v as [n|l']; [done|]. by exists l'.
  - pose proof (Hold _ E) as Hs. pose proof Hs as (Hwf0 & Hle & Hsc & Hl).
    apply advanced_sound; [done|by destruct Hc|done|].
    apply (record_keeps_lists qd cur (VInt i) Hs Hc). right.
    rewrite Hty. discriminate.
  - pose proof (Hold _ E) as Hs. pose proof Hs as (Hwf0 & Hle & Hsc & Hl).
    apply advanced_sound; [done|by destruct Hc|done|].
    apply (record_keeps_lists qd cur _ Hs Hc). left.
    destruct (entry_is_list qd cur Hwf0 Hc) as (l & El & _). by exists l.
  - pose proof (Hold _ E) as (Hwf0 & Hle & Hsc & Hl).
    by apply advanced_sound.
Qed.

Lemma sound_insert w u qd :
  sessions_ok table_sound session_sound w →
  button_next (question_table w) (active_quizzes w !! u) qd →
  sessions_ok table_sound session_sound
    (set_quizzes w (<[u := qd]> (active_quizzes w))).
Proof.
  intros [Ht Hs] Hn. split; [done|]. simpl.
  apply map_Forall_insert_2; [|done].
  eapply session_sound_next; [exact Ht| |exact Hn].
  intros qd0 E0. by apply (Hs u).
Qed.

Lemma sound_delete w u :
  sessions_ok table_sound session_sound w →
  sessions_ok table_sound session_sound
    (set_quizzes w (delete u (active_quizzes w))).
Proof. intros [Ht Hs]. split; [done|]. by apply map_Forall_delete. Qed.

Lemma sound_ext w w' :
  question_table w' = question_table w →
  active_quizzes w' = active_quizzes w →
  sessions_ok table_sound session_sound w →
  sessions_ok table_sound session_sound w'.
Proof. unfold sessions_ok. by intros -> ->. Qed.

Lemma is_correct_returns (ans : gmap string value) q :
  scorable q →
  (question_type q = "multiple" →
   ∀ v, ans !! str (id q) = Some v → ∃ l, v = VList l) →
  ∃ b, is_correct q (ans !! str (id q)) = Ok b.
Proof.
  intros Hsc Hl. unfold is_correct.
  destruct (ans !! str (id q)) as [v|]; [|by eexists].
  case_decide as H1.
  - destruct (correct_answer q) eqn:Ec; [by destruct (Hsc H1)|by eexists].
  - case_decide as H2; [|case_decide; by eexists].
    destruct (Hl H2 v eq_refl) as [l ->]. by eexists.
Qed.

Lemma score_questions_returns (ans : gmap string value) qs :
  Forall (λ q, ∃ b, is_correct q (ans !! str (id q)) = Ok b) qs →
  ∃ n rs, score_questions ans qs = Ok (n, rs).
Proof.
  induction 1 as [|q qs [b Hb] _ (n & rs & IH)]; simpl; [by eexists _, _|].
  rewrite Hb, IH. by eexists _, _.
Qed.

Lemma complete_quiz_returns w u now :
  sessions_ok table_sound session_sound w →
  ∀ e, (complete_quiz w u now).2 ≠ CompleteRaise e.
Proof.
  intros [_ Hs] e. unfold complete_quiz.
  destruct (active_quizzes w !! u) as [qd|] eqn:E; [|done].
  destruct (Hs u qd E) as (_ & _ & Hsc & Hl).
  destruct (score_questions_returns (answers qd) (questions qd)) as (n & rs & ->).
  { apply Forall_forall. intros q Hq. apply is_correct_returns.
    - by apply (proj1 (Forall_forall _ _) Hsc q).
    - intros Ht v Hv. by apply (Hl q v). }
  by destruct (users w !! u).
Qed.

Lemma get_current_question_returns w u :
  sessions_ok table_sound session_sound w →
  ∃ o, get_current_question w u = Ok o.
Proof.
  intros [_ Hs]. unfold get_current_question.
  destruct (active_quizzes w !! u) as [qd|] eqn:E; [|by eexists].
  destruct (Hs u qd E) as ((_ & H0 & _) & _).
  destruct (Z.leb_spec (len (questions qd)) (current_question qd));
    [by eexists|].
  destruct (py_item_in_range (questions qd) (current_question qd)) as [q ->];
    [lia|by eexists].
Qed.

Lemma show_question_sound w u now :
  sessions_ok table_sound session_sound w →
  (show_question w u now).2 ≠ ErrorMessage
  ∧ sessions_ok table_sound session_sound (show_question w u now).1.
Proof.
  intros Hs. unfold show_question.
  destruct (get_current_question_returns w u Hs) as [[cur|] ->]; [done|].
  pose proof (complete_quiz_returns w u now Hs) as Hr.
  destruct (complete_quiz_cases w u now) as [[E _]|(E1 & E2 & _)];
    destruct (complete_quiz w u now) as [w' r]; simpl in *.
  - subst w'. destruct r; try done. by destruct (Hr e).
  - assert (Hs' : sessions_ok table_sound session_sound w').
    { eapply (sound_ext (set_quizzes w (delete u (active_quizzes w))));
        [done|done|by apply sound_delete]. }
    destruct r; try done. by destruct (Hr e).
Qed.

(** [advance] on a sound store, for a session that a button press may
    write. *)
Lemma advance_sound w u qd now :
  sessions_ok table_sound session_sound w →
  button_next (question_table w) (active_quizzes w !! u) (advanced qd) →
  (after_submit (advance w u qd now) u now).2 ≠ ErrorMessage
  ∧ sessions_ok table_sound session_sound
      (after_submit (advance w u qd now) u now).1.
Proof.
  intros Hs Hn. pose proof (sound_insert w u _ Hs Hn) as Hs1.
  unfold advance. unfold advanced in Hs1. simpl in *.
  destruct (_ <=? _)%Z.
  - pose proof (complete_quiz_returns _ u now Hs1) as Hr.
    match goal with |- context [complete_quiz ?w1 u now] =>
      destruct (complete_quiz_cases w1 u now) as [[E _]|(E1 & E2 & _)];
      destruct (complete_quiz w1 u now) as [w' r] end; simpl in *.
    + subst w'. destruct r; try done. by destruct (Hr e).
    + assert (Hs' : sessions_ok table_sound session_sound w').
      { eapply sound_ext; [| |exact (sound_delete _ u Hs1)]; [exact E2|exact E1]. }
      destruct r; try done. by destruct (Hr e).
  - simpl. by apply show_question_sound.
Qed.

Lemma set_answer_sound w u qd cur v now :
  sessions_ok table_sound session_sound w →
  active_quizzes w !! u = Some qd → is_current qd cur →
  edits (entry qd cur) v →
  (show_question (set_answer w u (id cur) v) u now).2 ≠ ErrorMessage
  ∧ sessions_ok table_sound session_sound
      (show_question (set_answer w u (id cur) v) u now).1.
Proof.
  intros Hs E Hc He. apply show_question_sound.
  unfold set_answer. rewrite E. apply sound_insert; [done|].
  rewrite E. by apply (pressed_edit _ _ qd cur v).
Qed.

Lemma handle_test_button_sound w u data now rnd :
  sessions_ok table_sound session_sound w →
  (handle_test_button w u data now rnd).2 ≠ ErrorMessage
  ∧ sessions_ok table_sound session_sound
      (handle_test_button w u data now rnd).1.
Proof.
  intros Hs.
  assert (Hcur : ∀ cur, get_current_question w u = Ok (Some cur) →
            ∃ qd, active_quizzes w !! u = Some qd ∧ is_current qd cur
                  ∧ session_wf qd).
  { intros cur Hc.
    destruct (current_question_is_current _ _ _ Hc) as (qd & E & Hcur).
    exists qd. split_and!; [done..|]. by destruct (proj2 Hs u qd E). }
  destruct data as [topic|q i|q i|q|q|]; simpl.
  - destruct (decide (topic_questions w topic = [])) as [He|Hne].
    + unfold start_quiz. fold (topic_questions w topic). by rewrite He.
    + rewrite start_quiz_nonempty by done. apply show_question_sound.
      apply sound_insert; [done|]. apply pressed_start.
  - destruct (get_current_question_returns w u Hs) as [[cur|] Hc];
      rewrite Hc; [|done].
    destruct (Hcur _ Hc) as (qd & E & Hic & Hwf).
    case_decide as Hid; [subst q|done].
    case_decide as Hty.
    + rewrite (submit_answer_current w u _ _ now qd cur E Hic).
      apply advance_sound; [done|]. rewrite E. by apply pressed_single.
    + case_decide as Hty2; [|done].
      rewrite (get_answer_entry w u qd cur E).
      destruct (entry_is_list qd cur Hwf Hic) as (l & El & _).
      destruct (toggle i (entry qd cur)) as [v|e] eqn:Et;
        [|rewrite El in Et; simpl in Et; by destruct (bool_decide _)].
      eapply set_answer_sound; [done..|]. by apply (edit_toggle _ i).
  - destruct (get_current_question_returns w u Hs) as [[cur|] Hc];
      rewrite Hc; [|done].
    destruct (Hcur _ Hc) as (qd & E & Hic & Hwf).
    case_decide as Hid; [subst q|done].
    rewrite (get_answer_entry w u qd cur E).
    destruct (entry_is_list qd cur Hwf Hic) as (l & El & _).
    destruct (append_choice i (entry qd cur)) as [v|e] eqn:Et;
      [|by rewrite El in Et].
    eapply set_answer_sound; [done..|]. by apply (edit_append _ i).
  - destruct (get_current_question_returns w u Hs) as [[cur|] Hc];
      rewrite Hc; [|done].
    destruct (Hcur _ Hc) as (qd & E & Hic & Hwf).
    case_decide as Hid; [subst q|done].
    eapply set_answer_sound; [done..|]. apply edit_reset.
  - destruct (get_current_question_returns w u Hs) as [[cur|] Hc];
      rewrite Hc; [|done].
    destruct (Hcur _ Hc) as (qd & E & Hic & Hwf).
    case_decide as Hid; [subst q|done].
    rewrite (get_answer_entry w u qd cur E).
    rewrite (submit_answer_current w u _ _ now qd cur E Hic).
    apply advance_sound; [done|]. rewrite E. by apply pressed_confirm.
  - unfold skip_question.
    destruct (active_quizzes w !! u) as [qd|] eqn:E; [|done].
    destruct (Z.leb_spec (len (questions qd)) (current_question qd)); [done|].
    apply advance_sound; [done|]. rewrite E. by apply pressed_skip.
Qed.

(** A question accepted by [validate_question_data] can be scored. *)
Lemma validated_is_scorable (q : question) :
  validate_question_data q = true → scorable q.
Proof.
  unfold validate_question_data, scorable. intros H Ht.
  rewrite decide_True in H by done.
  apply andb_prop in H as [_ H]. by destruct (correct_answer q).
Qed.

(** X10: For questions tables whose rows hold JSON arrays in [options] and
    [correct_answer] (the rows a [question] stands for; rows of another
    shape are not covered): on a store without sessions whose table is keyed
    by [id] and gives every single-choice question a correct answer, no run
    of button presses ever makes an engine operation raise: no press is
    answered from the handler's except branch, [get_current_question] and
    [complete_quiz] return for every user, and every session stays well
    formed. *)
Theorem buttons_never_raise (w : world) (ps : list press) :
  table_sound (question_table w) → active_quizzes w = ∅ →
  sessions_ok table_sound session_sound (run w ps)
  ∧ (∀ u data now rnd,
       (handle_test_button (run w ps) u data now rnd).2 ≠ ErrorMessage)
  ∧ (∀ u, ∃ o, get_current_question (run w ps) u = Ok o)
  ∧ (∀ u now e, (complete_quiz (run w ps) u now).2 ≠ CompleteRaise e).
Proof.
  intros Ht He.
  assert (Hs : sessions_ok table_sound session_sound (run w ps)).
  { assert (H0 : sessions_ok table_sound session_sound w).
    { split; [done|]. rewrite He. apply map_Forall_empty. }
    clear He Ht. revert w H0.
    induction ps as [|[[[u d] now] rnd] ps IH]; intros w H0; [done|].
    apply IH. by apply handle_test_button_sound. }
  split_and!; [done| | |].
  - intros u data now rnd. by apply handle_test_button_sound.
  - intros u. by apply get_current_question_returns.
  - intros u now e. by apply complete_quiz_returns.
Qed.

Lemma buttons_never_raise_witness :
  table_sound (question_table (demo [q_single; q_multiple; q_sequence]))
  ∧ (handle_test_button
       (run (demo [q_single; q_multiple; q_sequence])
            (presses [QuizStart 1; QuizAnswer 1 0; QuizSeq 2 1]))
       42 (QuizConfirm 2) 0 []).2 ≠ ErrorMessage.
Proof.
  assert (H : table_sound
                (question_table (demo [q_single; q_multiple; q_sequence]))).
  { split; [apply (bool_decide_unpack _); vm_compute; exact I|].
    repeat constructor; intros ?; discriminate. }
  split; [exact H|].
  apply (buttons_never_raise _ _ H eq_refl).
Defined.

(** *** The keyboard of a question *)

Lemma collect_ok {A B} (g : nat → A → B) (l : list A) : ∀ j,
  collect (λ i x, Ok (g i x)) j l = Ok (imap (λ i, g (j + i)%nat) l).
Proof.
  induction l as [|x l IH]; intros j; [done|]. simpl. rewrite IH.
  rewrite Nat.add_0_r. do 2 f_equal. apply imap_ext. intros i y _. simpl.
  f_equal. lia.
Qed.

Lemma callbacks_app kb1 kb2 : callbacks (kb1 ++ kb2) = callbacks kb1 ++ callbacks kb2.
Proof. unfold callbacks. by rewrite concat_app, fmap_app. Qed.

Lemma callbacks_rows {A} (b : nat → A → button) (l : list A) :
  callbacks (imap (λ i x, [b i x]) l) = imap (λ i x, callback_data (b i x)) l.
Proof.
  revert b. induction l as [|x l IH]; intros b; [done|].
  unfold callbacks in *. simpl. f_equal. apply (IH (λ i, b (S i))).
Qed.

Lemma show_question_replies w u now : (show_question w u now).2 ≠ Ignored.
Proof.
  unfold show_question.
  destruct (get_current_question w u) as [[cur|]|]; try done.
  by destruct (complete_quiz w u now) as [w' []].
Qed.

Section keyboard.
Variable py_int : string → result Z.

(** The message as [show_question] asks for it: it is always produced, and
    its buttons are one per option, the confirm button for a multiple-choice
    question only, and skip. *)
Lemma format_without_user w q n t :
  ∃ text kb,
    format_question_message py_int w q n t None = Ok (text, kb)
    ∧ callbacks kb
      = (if decide (question_type q = "single" ∨ question_type q = "multiple")
         then ((λ i, QuizAnswer (id q) (Z.of_nat i))
                 <$> seq 0 (length (options q)))
              ++ (if decide (question_type q = "multiple")
                  then [QuizConfirm (id q)] else [])
         else if decide (question_type q = "sequence")
         then (λ i, QuizSeq (id q) (Z.of_nat i)) <$> seq 0 (length (options q))
         else [])
        ++ [QuizSkip].
Proof.
  unfold format_question_message. case_decide as H1.
  - rewrite (collect_ok (λ i option,
      [{| btn_text := option;
          callback_data := QuizAnswer (id q) (Z.of_nat i) |}])).
    eexists _, _. split; [done|]. simpl.
    rewrite callbacks_app, <- imap_seq_0. f_equal.
    case_decide.
    + by rewrite callbacks_app, callbacks_rows.
    + by rewrite callbacks_rows, app_nil_r.
  - case_decide as H2.
    + eexists _, _. split; [done|].
      by rewrite callbacks_app, callbacks_rows, <- imap_seq_0.
    + by eexists _, _.
Qed.
End keyboard.

(** X11: The keyboard that [show_question] asks for (no user id): the message is
    always produced; every button other than skip carries the id of the
    question; skip is there; there is a button for every option of a single-
    or multiple-choice question; the confirm button is there exactly for a
    multiple-choice question, so never for a sequence; and the reset button
    is never there. *)
Theorem keyboard_as_shown (py_int : string → result Z) (w : world)
    (q : question) (n t : Z) :
  ∃ text kb,
    format_question_message py_int w q n t None = Ok (text, kb)
    ∧ (∀ d, d ∈ callbacks kb → d = QuizSkip ∨ carries d (id q))
    ∧ QuizSkip ∈ callbacks kb
    ∧ (∀ i, (i < length (options q))%nat →
         (question_type q = "single" ∨ question_type q = "multiple" →
          QuizAnswer (id q) (Z.of_nat i) ∈ callbacks kb)
         ∧ (question_type q = "sequence" →
            QuizSeq (id q) (Z.of_nat i) ∈ callbacks kb))
    ∧ (QuizConfirm (id q) ∈ callbacks kb ↔ question_type q = "multiple")
    ∧ QuizReset (id q) ∉ callbacks kb.
Proof.
  destruct (format_without_user py_int w q n t) as (text & kb & E & Hk).
  exists text, kb. split; [exact E|]. rewrite Hk. clear E Hk.
  assert (Hseq : ∀ i, (i < length (options q))%nat →
            i ∈ seq 0 (length (options q))).
  { intros i Hi. apply elem_of_seq. lia. }
  split_and!.
  - intros d. rewrite !elem_of_app, list_elem_of_singleton.
    intros [Hd| ->]; [right|by left].
    repeat case_decide; rewrite ?elem_of_app in Hd.
    + destruct Hd as [(i & -> & _)%list_elem_of_fmap| ->%list_elem_of_singleton];
        done.
    + destruct Hd as [(i & -> & _)%list_elem_of_fmap|Hd]; [done|].
      by apply elem_of_nil in Hd.
    + by apply list_elem_of_fmap in Hd as (i & -> & _).
    + by apply elem_of_nil in Hd.
  - apply elem_of_app. right. by apply list_elem_of_singleton.
  - intros i Hi. split; intros Ht.
    + rewrite decide_True by done. rewrite !elem_of_app. left; left.
      apply list_elem_of_fmap. exists i. by split; [|apply Hseq].
    + rewrite decide_False by (rewrite Ht; intros [?|?]; discriminate).
      rewrite decide_True by done. rewrite !elem_of_app. left.
      apply list_elem_of_fmap. exists i. by split; [|apply Hseq].
  - rewrite !elem_of_app, list_elem_of_singleton. split.
    + intros [Hd|?]; [|done]. repeat case_decide; rewrite ?elem_of_app in Hd.
      * done.
      * destruct Hd as [(i & ? & _)%list_elem_of_fmap|Hd]; [done|].
        by apply elem_of_nil in Hd.
      * by apply list_elem_of_fmap in Hd as (i & ? & _).
      * by apply elem_of_nil in Hd.
    + intros Ht. left. rewrite decide_True by by right.
      rewrite decide_True by done. apply elem_of_app. right.
      by apply list_elem_of_singleton.
  - rewrite !elem_of_app, list_elem_of_singleton. intros [Hd|?]; [|done].
    repeat case_decide; rewrite ?elem_of_app in Hd.
    + destruct Hd as [(i & ? & _)%list_elem_of_fmap|?%list_elem_of_singleton];
        done.
    + destruct Hd as [(i & ? & _)%list_elem_of_fmap|Hd]; [done|].
      by apply elem_of_nil in Hd.
    + by apply list_elem_of_fmap in Hd as (i & ? & _).
    + by apply elem_of_nil in Hd.
Qed.

Lemma keyboard_as_shown_witness :
  ∃ text kb,
    format_question_message int_of_numeral
      (run (demo [q_sequence]) (presses [QuizStart 1; QuizSeq 3 0]))
      q_sequence 1 1 None = Ok (text, kb)
    ∧ QuizReset (id q_sequence) ∉ callbacks kb.
Proof.
  destruct (keyboard_as_shown int_of_numeral
              (run (demo [q_sequence]) (presses [QuizStart 1; QuizSeq 3 0]))
              q_sequence 1 1)
    as (text & kb & E & _ & _ & _ & _ & Hr).
  by exists text, kb.
Defined.

(** X12: Every button of the keyboard that [show_question] puts under the current
    question is a live one: pressed next, it is never ignored as stale. *)
Theorem shown_buttons_are_live (py_int : string → result Z) (w : world)
    (u : Z) (text : string) (kb : list (list button)) :
  question_message py_int w u = Some (Ok (text, kb)) →
  ∀ d now rnd, d ∈ callbacks kb →
    (handle_test_button w u d now rnd).2 ≠ Ignored.
Proof.
  unfold question_message.
  destruct (get_current_question w u) as [[cur|]|] eqn:Hc; try done.
  destruct (active_quizzes w !! u) as [qd|]; [|done].
  destruct (format_without_user py_int w cur (current_question qd + 1)
              (len (questions qd))) as (text' & kb' & -> & Hk).
  intros [= <- <-] d now rnd. rewrite Hk.
  rewrite !elem_of_app, list_elem_of_singleton. intros [Hd| ->].
  - repeat case_decide; rewrite ?elem_of_app in Hd.
    + destruct Hd as [(i & -> & _)%list_elem_of_fmap| ->%list_elem_of_singleton].
      * simpl. rewrite Hc. rewrite decide_True by done.
        case_decide; [apply after_submit_replies|].
        rewrite decide_True by done.
        destruct (toggle _ _); [apply show_question_replies|done].
      * rewrite (handle_confirm_current w u now rnd cur Hc).
        apply after_submit_replies.
    + destruct Hd as [(i & -> & _)%list_elem_of_fmap|Hd];
        [|by apply elem_of_nil in Hd].
      simpl. rewrite Hc. rewrite decide_True by done.
      case_decide; [apply after_submit_replies|]. tauto.
    + apply list_elem_of_fmap in Hd as (i & -> & _).
      simpl. rewrite Hc. rewrite decide_True by done.
      destruct (append_choice _ _); [apply show_question_replies|done].
    + by apply elem_of_nil in Hd.
  - simpl. apply after_submit_replies.
Qed.

Lemma shown_buttons_are_live_witness :
  ∃ text kb,
    question_message int_of_numeral
      (run (demo [q_multiple]) (presses [QuizStart 1])) 42
    = Some (Ok (text, kb))
    ∧ (handle_test_button (run (demo [q_multiple]) (presses [QuizStart 1]))
                          42 (QuizConfirm 2) 0 []).2 ≠ Ignored.
Proof.
  eexists _, _. split; [vm_compute; reflexivity|].
  eapply (shown_buttons_are_live int_of_numeral
            (run (demo [q_multiple]) (presses [QuizStart 1])) 42 _ _
            ltac:(vm_compute; reflexivity)).
  vm_compute. do 3 apply list_elem_of_further. apply list_elem_of_here.
Defined.

Lemma collect_returns {A B} (f : nat → A → result B) (l : list A) :
  Forall (λ x, ∀ i, ∃ y, f i x = Ok y) l → ∀ j, ∃ ys, collect f j l = Ok ys.
Proof.
  induction 1 as [|x l Hx _ IH]; intros j; simpl; [by eexists|].
  destruct (Hx j) as [y ->]. destruct (IH (S j)) as [ys ->]. by eexists.
Qed.

Lemma elem_of_seq_items (i : Z) (picks : list Z) :
  AStr (str i) ∈ seq_items picks ↔ i ∈ picks.
Proof.
  unfold seq_items. rewrite list_elem_of_fmap. split.
  - intros (p & [= Hs] & Hp). apply str_inj in Hs. by subst.
  - intros Hi. by exists i.
Qed.

(** X13: Given the user id, the message of a sequence question with picks
    accumulated by the buttons offers exactly the options not yet picked,
    then reset and confirm, then skip: no option of the current sequence is
    offered again. The picks are option indices that [int] reads back. *)
Theorem picked_options_are_not_offered (py_int : string → result Z)
    (w : world) (u : Z) (q : question) (n t : Z) (picks : list Z) :
  question_type q = "sequence" →
  get_current_sequence w u (id q) = VList (seq_items picks) →
  picks ≠ [] →
  Forall (λ p, py_int (str p) = Ok p ∧ 0 <= p < len (options q)) picks →
  ∃ text kb,
    format_question_message py_int w q n t (Some u) = Ok (text, kb)
    ∧ callbacks kb
      = ((λ i, QuizSeq (id q) (Z.of_nat i))
           <$> filter (λ i, Z.of_nat i ∉ picks) (seq 0 (length (options q))))
        ++ [QuizReset (id q); QuizConfirm (id q); QuizSkip]
    ∧ ∀ p, p ∈ picks → QuizSeq (id q) p ∉ callbacks kb.
Proof.
  intros Ht Hs Hne Hp. unfold format_question_message.
  rewrite decide_False by (rewrite Ht; intros [?|?]; discriminate).
  rewrite decide_True by done. rewrite Hs.
  assert (Htr : truthy (VList (seq_items picks)) = true).
  { simpl. apply bool_decide_eq_true_2. by destruct picks. }
  rewrite Htr.
  match goal with |- context [collect ?f 0%nat (seq_items picks)] =>
    destruct (collect_returns f (seq_items picks)) with (j := 0%nat)
      as [lines ->] end.
  { unfold seq_items. apply Forall_fmap. eapply Forall_impl; [exact Hp|].
    intros p [Hi Hr] i. simpl. rewrite Hi.
    destruct (py_item_in_range (options q) p Hr) as [o ->]. by eexists. }
  eexists _, _. split; [done|].
  assert (Hcb : ∀ rem : list nat,
    callbacks (((λ i : nat,
        [{| btn_text := default "" (options q !! i);
            callback_data := QuizSeq (id q) (Z.of_nat i) |}]) <$> rem))
    = (λ i, QuizSeq (id q) (Z.of_nat i)) <$> rem).
  { intros rem. unfold callbacks. induction rem as [|i rem IH]; [done|].
    csimpl. by rewrite IH. }
  assert (Heq : callbacks
      (((λ i : nat,
          [{| btn_text := default "" (options q !! i);
              callback_data := QuizSeq (id q) (Z.of_nat i) |}])
         <$> filter (λ i : nat, AStr (str (Z.of_nat i)) ∉ seq_items picks)
               (seq 0 (length (options q))))
       ++ [[{| btn_text := "🔄 Сбросить"; callback_data := QuizReset (id q) |};
            {| btn_text := "✅ Подтвердить";
               callback_data := QuizConfirm (id q) |}]]
       ++ [[{| btn_text := "⏩ Пропустить"; callback_data := QuizSkip |}]])
    = ((λ i, QuizSeq (id q) (Z.of_nat i))
         <$> filter (λ i, Z.of_nat i ∉ picks) (seq 0 (length (options q))))
      ++ [QuizReset (id q); QuizConfirm (id q); QuizSkip]).
  { rewrite callbacks_app, Hcb. f_equal. f_equal.
    apply list_filter_iff. intros i. by rewrite elem_of_seq_items. }
  split; [exact Heq|]. rewrite Heq.
  intros p Hpin. rewrite elem_of_app. intros [Hd|Hd].
  - apply list_elem_of_fmap in Hd as (i & [= ->] & Hi).
    by apply list_elem_of_filter in Hi as [Hni _].
  - repeat (apply elem_of_cons in Hd as [?|Hd]; [done|]).
    by apply elem_of_nil in Hd.
Qed.

Lemma picked_options_are_not_offered_witness :
  get_current_sequence
    (run (demo [q_sequence]) (presses [QuizStart 1; QuizSeq 3 2])) 42 3
  = VList (seq_items [2])
  ∧ ∃ text kb,
      format_question_message int_of_numeral
        (run (demo [q_sequence]) (presses [QuizStart 1; QuizSeq 3 2]))
        q_sequence 1 1 (Some 42) = Ok (text, kb)
      ∧ callbacks kb
        = [QuizSeq 3 0; QuizSeq 3 1; QuizReset 3; QuizConfirm 3; QuizSkip].
Proof.
  assert (H : get_current_sequence
                (run (demo [q_sequence]) (presses [QuizStart 1; QuizSeq 3 2]))
                42 3 = VList (seq_items [2])) by (vm_compute; reflexivity).
  split; [exact H|].
  destruct (picked_options_are_not_offered int_of_numeral
              (run (demo [q_sequence]) (presses [QuizStart 1; QuizSeq 3 2]))
              42 q_sequence 1 1 [2] eq_refl H)
    as (text & kb & E & Hk & _).
  - discriminate.
  - repeat constructor; vm_compute; congruence.
  - exists text, kb. split; [exact E|]. rewrite Hk. reflexivity.
Defined.

(** *** Text helpers *)

Lemma py_prefix_length {A} (l : list A) (k : Z) :
  len (py_prefix l k)
  = if (0 <=? k)%Z then Z.min k (len l) else Z.max 0 (len l + k).
Proof.
  unfold py_prefix, len.
  destruct (Z.leb_spec 0 k); rewrite length_take; lia.
Qed.

(** X14: [truncate_text] keeps a text that fits; for [max_length >= 3] the result
    never exceeds [max_length], a cut text is the first [max_length - 3]
    characters followed by three dots and is exactly [max_length] long, and
    truncating twice is truncating once. For [max_length < 3] a text that
    does not fit comes back longer than [max_length]. *)
Theorem truncate_text_bound {A} (dot : A) (text : list A) (max_length : Z) :
  (len text <= max_length → truncate_text dot text max_length = text)
  ∧ (3 <= max_length →
     len (truncate_text dot text max_length) <= max_length
     ∧ truncate_text dot (truncate_text dot text max_length) max_length
       = truncate_text dot text max_length)
  ∧ (3 <= max_length < len text →
     truncate_text dot text max_length
     = take (Z.to_nat (max_length - 3)) text ++ [dot; dot; dot]
     ∧ len (truncate_text dot text max_length) = max_length)
  ∧ (max_length < 3 → max_length < len text →
     max_length < len (truncate_text dot text max_length)).
Proof.
  assert (Hlen : max_length < len text →
            len (truncate_text dot text max_length)
            = (if (0 <=? max_length - 3)%Z
               then Z.min (max_length - 3) (len text)
               else Z.max 0 (len text + (max_length - 3))) + 3).
  { intros Hlt. unfold truncate_text.
    rewrite (proj2 (Z.leb_gt _ _)) by done.
    rewrite <- py_prefix_length. unfold len. rewrite length_app. simpl. lia. }
  assert (Hfit : len text <= max_length →
            truncate_text dot text max_length = text).
  { intros Hle. unfold truncate_text. by rewrite (proj2 (Z.leb_le _ _)). }
  assert (Hbound : 3 <= max_length →
            len (truncate_text dot text max_length) <= max_length).
  { intros H3. destruct (Z.le_gt_cases (len text) max_length) as [Hle|Hgt].
    - by rewrite Hfit.
    - rewrite Hlen by lia. rewrite (proj2 (Z.leb_le _ _)) by lia. lia. }
  split_and!.
  - exact Hfit.
  - intros H3. split; [by apply Hbound|].
    unfold truncate_text at 1.
    by rewrite (proj2 (Z.leb_le _ _)) by by apply Hbound.
  - intros [H3 Hgt]. split.
    + unfold truncate_text, py_prefix.
      rewrite (proj2 (Z.leb_gt _ _)) by done.
      by rewrite (proj2 (Z.leb_le 0 _)) by lia.
    + rewrite Hlen by lia. rewrite (proj2 (Z.leb_le _ _)) by lia. lia.
  - intros H3 Hgt. rewrite Hlen by done.
    rewrite (proj2 (Z.leb_gt _ _)) by lia. unfold len in *. lia.
Qed.

Lemma truncate_text_bound_witness :
  len (truncate_text "." ["a"; "b"; "c"; "d"; "e"; "f"] 5) <= 5.
Proof.
  apply (truncate_text_bound "." ["a"; "b"; "c"; "d"; "e"; "f"] 5).
  lia.
Defined.

(** X15: The durations are split exactly: for a time that is not negative the
    printed hours, minutes and seconds add up to it, minutes and seconds stay
    below 60, and a unit is printed only from the first one that is not
    zero. A negative number of seconds is printed as it is; of a negative
    number of minutes only the remainder modulo 60 is printed. *)
Theorem durations_are_split_exactly :
  (∀ seconds, 0 <= seconds →
     ∃ h m s, seconds = h * 3600 + m * 60 + s
       ∧ 0 <= h ∧ 0 <= m < 60 ∧ 0 <= s < 60
       ∧ format_time_period seconds
         = if (h =? 0)%Z
           then if (m =? 0)%Z then str s +:+ " сек"
                else str m +:+ " мин " +:+ str s +:+ " сек"
           else str h +:+ " ч " +:+ str m +:+ " мин " +:+ str s +:+ " сек")
  ∧ (∀ seconds, seconds < 0 →
       format_time_period seconds = str seconds +:+ " сек")
  ∧ (∀ minutes, 0 <= minutes →
       ∃ h m, minutes = h * 60 + m ∧ 0 <= h ∧ 0 <= m < 60
         ∧ format_time minutes
           = if (h =? 0)%Z then str m +:+ " мин"
             else str h +:+ " ч " +:+ str m +:+ " мин")
  ∧ (∀ minutes, minutes < 0 →
       format_time minutes = str (minutes `mod` 60) +:+ " мин").
Proof.
  split_and!.
  - intros seconds H0. unfold format_time_period.
    destruct (Z.ltb_spec seconds 60) as [Hs|Hs].
    { exists 0, 0, seconds. split_and!; try lia. done. }
    pose proof (Z.div_mod seconds 60 ltac:(lia)) as Hdm.
    pose proof (Z.mod_pos_bound seconds 60 ltac:(lia)) as Hm.
    assert (1 <= seconds `div` 60) by (apply Z.div_le_lower_bound; lia).
    destruct (Z.ltb_spec (seconds `div` 60) 60) as [Hmin|Hmin].
    { exists 0, (seconds `div` 60), (seconds `mod` 60).
      split_and!; try lia.
      simpl. by rewrite (proj2 (Z.eqb_neq _ _)) by lia. }
    pose proof (Z.div_mod (seconds `div` 60) 60 ltac:(lia)) as Hdm2.
    pose proof (Z.mod_pos_bound (seconds `div` 60) 60 ltac:(lia)) as Hm2.
    assert (1 <= (seconds `div` 60) `div` 60)
      by (apply Z.div_le_lower_bound; lia).
    exists ((seconds `div` 60) `div` 60), ((seconds `div` 60) `mod` 60),
           (seconds `mod` 60).
    split_and!; try lia.
    by rewrite (proj2 (Z.eqb_neq _ _)) by lia.
  - intros seconds Hneg. unfold format_time_period.
    by rewrite (proj2 (Z.ltb_lt _ _)) by lia.
  - intros minutes H0. unfold format_time.
    pose proof (Z.div_mod minutes 60 ltac:(lia)) as Hdm.
    pose proof (Z.mod_pos_bound minutes 60 ltac:(lia)) as Hm.
    assert (0 <= minutes `div` 60) by (apply Z.div_pos; lia).
    exists (minutes `div` 60), (minutes `mod` 60). split_and!; try lia.
    destruct (Z.ltb_spec 0 (minutes `div` 60)).
    + by rewrite (proj2 (Z.eqb_neq _ _)) by lia.
    + by rewrite (proj2 (Z.eqb_eq _ _)) by lia.
  - intros minutes Hneg. unfold format_time.
    assert (minutes `div` 60 < 0) by (apply Z.div_lt_upper_bound; lia).
    by rewrite (proj2 (Z.ltb_ge _ _)) by lia.
Qed.

Lemma durations_are_split_exactly_witness :
  format_time_period 3725 = "1 ч 2 мин 5 сек"
  ∧ format_time (-5) = "55 мин".
Proof.
  destruct durations_are_split_exactly as (_ & _ & _ & Hneg).
  split; [reflexivity|]. rewrite Hneg by lia. reflexivity.
Defined.

Lemma collect_raises {A B} (f : nat → A → result B) (l : list A) e : ∀ j,
  collect f j l = Raise e → ∃ i x, x ∈ l ∧ f i x = Raise e.
Proof.
  induction l as [|x l IH]; intros j; simpl; [done|].
  destruct (f j x) as [y|e'] eqn:Ef.
  - destruct (collect f (S j) l) as [ys|e''] eqn:Ec; [done|].
    intros [= ->]. destruct (IH _ Ec) as (i & x' & Hx' & Hf).
    exists i, x'. split; [by apply list_elem_of_further|done].
  - intros [= ->]. exists j, x. split; [apply list_elem_of_here|done].
Qed.

Lemma py_item_none {A} (l : list A) (i : Z) :
  i < len l → py_item l i = None → i < - len l.
Proof.
  unfold py_item, len. intros Hlt.
  destruct (Z.leb_spec 0 i).
  - intros Hn%lookup_ge_None. lia.
  - destruct (Z.leb_spec 0 (Z.of_nat (length l) + i)); [|lia].
    intros Hn%lookup_ge_None. lia.
Qed.

(** X16: [format_answer] without options never raises and prints the answer as
    it is stored: the items of a list joined by commas, an int as its
    numeral, a missing answer as "not answered". With options it raises only
    IndexError, and only when an int index below [-len(options)] is to be
    shown. *)
Theorem format_answer_failures (answer : option value) (options : list string) :
  format_answer answer [] =
    Ok (match answer with
        | None => "Не отвечено"
        | Some (VInt n) => str n
        | Some (VList l) => join ", " (str_atom <$> l)
        end)
  ∧ ∀ e, format_answer answer options = Raise e →
      e = IndexError ∧ options ≠ []
      ∧ ∃ n, n < - len options
             ∧ (answer = Some (VInt n)
                ∨ ∃ l, answer = Some (VList l) ∧ AInt n ∈ l).
Proof.
  split; [by destruct answer as [[n|l]|]|].
  intros e. destruct answer as [[n|l]|]; simpl; [| |done].
  - case_bool_decide as Ho; simpl; [|done].
    destruct (Z.ltb_spec n (len options)) as [Hlt|]; [|done].
    destruct (py_item options n) eqn:Ei; [done|]. intros [= <-].
    split_and!; [done..|]. exists n. split; [by apply py_item_none|by left].
  - case_bool_decide as Ho; simpl; [|done].
    destruct (all_ints l); [|done].
    destruct (collect _ 0%nat (ints l)) as [parts|e'] eqn:Ec; [done|].
    intros [= ->]. apply collect_raises in Ec as (i & n & Hn & Hf).
    destruct (Z.ltb_spec n (len options)) as [Hlt|]; [|done].
    destruct (py_item options n) eqn:Ei; [done|]. injection Hf as <-.
    split_and!; [done..|]. exists n. split; [by apply py_item_none|].
    right. exists l. split; [done|]. by apply elem_of_ints.
Qed.

Lemma format_answer_failures_witness :
  format_answer (Some (VList [AInt 0; AInt 2])) []
  = Ok "0, 2"
  ∧ format_answer (Some (VInt (-3))) ["a"; "b"] = Raise IndexError.
Proof.
  split.
  - apply (format_answer_failures (Some (VList [AInt 0; AInt 2])) []).
  - reflexivity.
Defined.

(** *** Answers belong to the session *)

Lemma py_item_elem {A} (l : list A) (i : Z) (x : A) :
  py_item l i = Some x → x ∈ l.
Proof.
  unfold py_item. destruct (_ <=? _)%Z; [apply list_elem_of_lookup_2|].
  destruct (_ <=? _)%Z; [apply list_elem_of_lookup_2|done].
Qed.

Lemma answers_of_session_next table old qd :
  (∀ qd0, old = Some qd0 → answers_of_session qd0) →
  session_next table old qd → answers_of_session qd.
Proof.
  intros Hold Hn.
  assert (Hrec : ∀ qd0 cur v, answers_of_session qd0 → is_current qd0 cur →
            ∀ k v', <[str (id cur) := v]> (answers qd0) !! k = Some v' →
                    ∃ q, q ∈ questions qd0 ∧ k = str (id q)).
  { intros qd0 cur v H0 [_ Hi] k v'.
    destruct (decide (str (id cur) = k)) as [<-|Hne].
    - intros _. exists cur. split; [by eapply py_item_elem|done].
    - rewrite lookup_insert_ne by done. apply H0. }
  destruct Hn as [topic k now rnd|qd cur v E Hc He|qd cur v E Hc|qd E Hc].
  - intros k' v. simpl. by rewrite lookup_empty.
  - exact (Hrec qd cur v (Hold _ E) Hc).
  - pose proof (Hrec qd cur v (Hold _ E) Hc) as H.
    unfold advanced, record, answers_of_session. simpl.
    by destruct (_ <=? _)%Z.
  - pose proof (Hold _ E) as H. unfold advanced, answers_of_session. simpl.
    by destruct (_ <=? _)%Z.
Qed.

(** X17: An answer is only ever recorded for a question of the session: every
    key of the answers map is [str(id)] of one of its questions. Every
    operation of the service and every button press keeps this, so it holds
    after any run of presses that starts without sessions. *)
Theorem answers_belong_to_the_session (w : world) :
  map_Forall (λ _ qd, answers_of_session qd) (active_quizzes w) →
  (∀ w' u, store_step w w' u →
     map_Forall (λ _ qd, answers_of_session qd) (active_quizzes w'))
  ∧ (∀ u q a now,
       map_Forall (λ _ qd, answers_of_session qd)
                  (active_quizzes (submit_answer w u q a now).1))
  ∧ (∀ u data now rnd,
       map_Forall (λ _ qd, answers_of_session qd)
                  (active_quizzes (handle_test_button w u data now rnd).1))
  ∧ (∀ ps, map_Forall (λ _ qd, answers_of_session qd)
                      (active_quizzes (run w ps))).
Proof.
  intros Hinv.
  assert (Hok : sessions_ok (λ _, True) answers_of_session w) by done.
  assert (Hnext : ∀ table old qd, True →
            (∀ qd0, old = Some qd0 → answers_of_session qd0) →
            session_next table old qd → answers_of_session qd).
  { intros table old qd _. apply answers_of_session_next. }
  assert (Hstep : ∀ w' u, store_step w w' u →
            map_Forall (λ _ qd, answers_of_session qd) (active_quizzes w')).
  { intros w' u Hs.
    by destruct (store_step_ok (λ _, True) answers_of_session Hnext
                   w w' u Hok Hs). }
  split_and!.
  - exact Hstep.
  - intros u q a now. eapply Hstep, submit_answer_step.
  - intros u data now rnd. eapply Hstep, handle_test_button_step.
  - intros ps.
    by destruct (run_ok (λ _, True) answers_of_session Hnext ps w Hok).
Qed.

Lemma answers_belong_to_the_session_witness :
  map_Forall (λ _ qd, answers_of_session qd)
             (active_quizzes (demo [q_single; q_multiple]))
  ∧ ∀ ps, map_Forall (λ _ qd, answers_of_session qd)
                     (active_quizzes (run (demo [q_single; q_multiple]) ps)).
Proof.
  assert (H : map_Forall (λ _ qd, answers_of_session qd)
                         (active_quizzes (demo [q_single; q_multiple])))
    by apply map_Forall_empty.
  split; [exact H|].
  apply (answers_belong_to_the_session _ H).
Defined.

(** *** A multiple-choice answer, end to end *)

(** Toggling indices that differ from each other and from what is selected
    appends them in order. *)
Lemma run_answer_presses u cur now rnd picks : ∀ w l,
  get_current_question w u = Ok (Some cur) →
  question_type cur = "multiple" →
  get_answer w u (id cur) = VList l →
  NoDup picks → (∀ i, i ∈ picks → AInt i ∉ l) →
  get_current_question (run w (answer_presses u (id cur) picks now rnd)) u
    = Ok (Some cur)
  ∧ get_answer (run w (answer_presses u (id cur) picks now rnd)) u (id cur)
    = VList (l ++ (AInt <$> picks)).
Proof.
  induction picks as [|i picks IH]; intros w l Hc Ht Ha Hnd Hni.
  - simpl. by rewrite app_nil_r.
  - change (run w (answer_presses u (id cur) (i :: picks) now rnd))
      with (run (handle_test_button w u (QuizAnswer (id cur) i) now rnd).1
                (answer_presses u (id cur) picks now rnd)).
    apply NoDup_cons in Hnd as [Hi Hnd].
    assert (Hil : AInt i ∉ l) by (apply Hni, list_elem_of_here).
    destruct (handle_toggle_press w u cur i now rnd (VList (l ++ [AInt i])))
      as [Hc1 Ha1]; [done|done| |].
    { rewrite Ha. simpl. by rewrite bool_decide_eq_false_2. }
    destruct (IH _ (l ++ [AInt i]) Hc1 Ht Ha1 Hnd) as [H1 H2].
    + intros j Hj. rewrite elem_of_app, list_elem_of_singleton.
      intros [Hin|[= ->]]; [|done].
      by apply (Hni j); [apply list_elem_of_further|].
    + split; [done|]. rewrite H2. by rewrite <- app_assoc.
Qed.

(** X18: A multiple-choice question answered through the buttons: toggling on,
    from an empty selection, options that differ from each other records
    them in the order pressed, and the confirm that follows records that
    list as the answer; at completion it is correct exactly when the picked
    indices and the correct ones are the same set, whatever the order. *)
Theorem toggled_selection_is_scored_as_a_set (w : world) (u : Z)
    (cur : question) (picks correct : list Z) (now : Z) (rnd : list nat) :
  get_current_question w u = Ok (Some cur) →
  question_type cur = "multiple" →
  get_answer w u (id cur) = VList [] →
  NoDup picks →
  correct_answer cur = AInt <$> correct →
  get_answer (run w (answer_presses u (id cur) picks now rnd)) u (id cur)
  = VList (AInt <$> picks)
  ∧ handle_test_button (run w (answer_presses u (id cur) picks now rnd)) u
                       (QuizConfirm (id cur)) now rnd
    = after_submit
        (submit_answer (run w (answer_presses u (id cur) picks now rnd)) u
                       (id cur) (VList (AInt <$> picks)) now) u now
  ∧ is_correct cur (Some (VList (AInt <$> picks)))
    = Ok (bool_decide (list_to_set picks =@{gset Z} list_to_set correct)).
Proof.
  intros Hc Ht Ha Hnd Hca.
  destruct (run_answer_presses u cur now rnd picks w [] Hc Ht Ha Hnd)
    as [Hc' Ha']; [intros i _; apply not_elem_of_nil|].
  simpl in Ha'. split_and!.
  - exact Ha'.
  - by rewrite (handle_confirm_current _ u now rnd cur Hc'), Ha'.
  - rewrite is_correct_multiple by done. rewrite Hca. f_equal.
    apply bool_decide_ext. rewrite set_eq_members.
    assert (Hin : ∀ i (l : list Z), AInt i ∈ AInt <$> l ↔ i ∈ l).
    { intros i l. rewrite list_elem_of_fmap. split.
      - by intros (j & [= ->] & Hj).
      - intros Hi. by exists i. }
    split.
    + intros H. apply set_eq. intros i. rewrite !elem_of_list_to_set.
      by rewrite <- !Hin.
    + intros H [i|s].
      * rewrite !Hin. by rewrite <- !(elem_of_list_to_set (C:=gset Z)), H.
      * split; intros (? & ? & _)%list_elem_of_fmap; done.
Qed.

Lemma toggled_selection_is_scored_as_a_set_witness :
  get_current_question (run (demo [q_multiple]) (presses [QuizStart 1])) 42
  = Ok (Some q_multiple)
  ∧ is_correct q_multiple (Some (VList (AInt <$> [2; 0]))) = Ok true.
Proof.
  assert (H : get_current_question
                (run (demo [q_multiple]) (presses [QuizStart 1])) 42
              = Ok (Some q_multiple)) by (vm_compute; reflexivity).
  split; [exact H|].
  destruct (toggled_selection_is_scored_as_a_set
              (run (demo [q_multiple]) (presses [QuizStart 1]))
              42 q_multiple [2; 0] [0; 2] 0 [] H eq_refl
              ltac:(vm_compute; reflexivity))
    as (_ & _ & Hs).
  - apply (bool_decide_unpack _). vm_compute. exact I.
  - reflexivity.
  - rewrite Hs. f_equal.
Defined.
